(** * The in-memory session store of package [ram]

    A shallow embedding of [ram.go]: the session table owned by the
    [sessionServer] goroutine, the commands it executes, the exported
    methods of [Store] that send those commands, and the [Set]/[Get]/[Del]
    methods of [Session].

    Conventions of the embedding.
    - A [uuid.UUID] is a 128-bit identifier, sixteen bytes, kept as the [N]
      they spell, first byte first; it is only ever used as a map key and
      as the argument of [Variant].
    - [time.Time] and [time.Duration] are integers counting nanoseconds
      ([Z]); a [time.Duration] is an int64 and the one multiplication the
      package performs on it wraps around.  [time.Since] is the difference
      of two instants; its saturation, 292 years away, is left out.
    - A Go map is a reference: the [data] field of a [Session] is a pointer
      to a [valueStore] living on the heap, and every copy of the [Session]
      struct points to the same [valueStore].  The heap is part of the
      state.
    - [time.Now()] reads the [clock] of the state; the clock is advanced by
      the environment between two commands.
    - A run-time panic (slice bounds out of range, assignment to an entry
      of a nil map) and [log.Fatal] stop the process: the functions that can
      reach one return an [option], and [None] stands for the stopped
      process.
    - The counters ([index] of the store and of a session) are ints that
      count the elements of [array]; they are integers here, no run of the
      program brings them near the bounds of an int.
    - Logging has no effect on the state and is left out. *)

From stdpp Require Import gmap strings list fin_maps.
From Stdlib Require Import ZArith Lia.

Local Open Scope Z_scope.

(** ** Data *)

Abbreviation UUID := N (only parsing).
Abbreviation Time := Z (only parsing).
Abbreviation Duration := Z (only parsing).

(** [time.Duration] is an int64: the result of an arithmetic operation is
    reduced to the signed 64-bit range. *)
Definition wrap64 (z : Z) : Z := (z + 2 ^ 63) `mod` 2 ^ 64 - 2 ^ 63.

Definition Second : Duration := 1000000000.
Definition Minute : Duration := 60 * Second.

(** The variants of package [uuid]; [Variant] itself belongs to that
    package and is a parameter of the development (Section [Ram]). *)
Inductive variant := Invalid | RFC4122 | Reserved | Microsoft | Future.

Global Instance variant_eq_dec : EqDecision variant.
Proof. solve_decision. Defined.

(** The sentinel errors of the package. *)
Inductive sentinel := ErrNoSession | ErrPoorForm | ErrTimedOut | ErrNoData.

Global Instance sentinel_eq_dec : EqDecision sentinel.
Proof. solve_decision. Defined.

(** [fmt.Errorf("%s: %w", fname, err)]: a sentinel wrapped with the name of
    the function that failed.  A Go [error] result is an [option error],
    [None] being [nil]. *)
Inductive error := Errorf (fname : string) (e : sentinel).

Definition Unwrap (e : error) : sentinel := let 'Errorf _ s := e in s.

(** Values of type [interface{}] put in a value store. *)
Inductive any := anyNil | anyInt (n : Z) | anyString (s : string).

(** [valueStore]: [map[interface{}]interface{}]; the methods of [Session]
    only ever use keys of type string. *)
Abbreviation valueStore := (gmap string any) (only parsing).

(** A pointer to a [valueStore] on the heap; [None] is the nil map. *)
Abbreviation loc := nat (only parsing).

(** [sto *Store]: nil, or the address of the store. *)
Inductive StorePtr := nilStore | ptrStore.

Record Session := mkSession {
  id : UUID;
  data : option loc;
  created : Time;
  modified : Time;
  index : Z;
  sto : StorePtr;
  maxage : Duration;
  active : bool
}.

(** [Session{}] *)
Definition Session_zero : Session :=
  {| id := 0%N; data := None; created := 0; modified := 0; index := 0;
     sto := nilStore; maxage := 0; active := false |}.

Definition set_modified (t : Time) (s : Session) : Session :=
  {| id := id s; data := data s; created := created s; modified := t;
     index := index s; sto := sto s; maxage := maxage s; active := active s |}.

Definition set_index (i : Z) (s : Session) : Session :=
  {| id := id s; data := data s; created := created s; modified := modified s;
     index := i; sto := sto s; maxage := maxage s; active := active s |}.

Definition set_maxage (d : Duration) (s : Session) : Session :=
  {| id := id s; data := data s; created := created s; modified := modified s;
     index := index s; sto := sto s; maxage := d; active := active s |}.

(** [Store], without its channel.  The counter [index] of the Go struct is
    [tally] here, [index] being the field of [Session]. *)
Record Store := mkStore {
  sessions : gmap UUID Session;
  array : list UUID;
  tally : Z;
  period : Duration
}.

(** The state: the store, the heap of value stores and the clock. *)
Record World := mkWorld {
  store : Store;
  heap : list (gmap string any);
  clock : Time
}.

Definition set_store (s : Store) (w : World) : World :=
  {| store := s; heap := heap w; clock := clock w |}.

Definition set_heap (h : list (gmap string any)) (w : World) : World :=
  {| store := store w; heap := h; clock := clock w |}.

(** Time passing between two commands. *)
Definition advance (d : N) (w : World) : World :=
  {| store := store w; heap := heap w; clock := clock w + Z.of_N d |}.

(** [cmd] *)
Inductive cmd := create | activate | deactivate | touch | timecheck | exit.

(** [command], without its reply channel and store pointer; its fields
    [cmd] and [maxage] are [ccmd] and [cmaxage] here. *)
Record command := mkCommand {
  ccmd : cmd;
  key : UUID;
  cmaxage : Duration
}.

Definition divisor : Duration := 2.
Definition defaultPeriod : Z := 20.

(** ** The commands of the session server *)

(** [command.create].  The two calls of [time.Now()] that stamp [created]
    and [modified] are one read of the clock here: the time a command
    takes is not part of the state.  Of the two stamps only their order is
    ever stated. *)
Definition command_create (c : command) (w : World) : Session * World :=
  let st := store w in
  match sessions st !! key c with
  | Some _ => (Session_zero, w)
  | None =>
      let s := {| id := key c;
                  data := Some (length (heap w));
                  created := clock w;
                  modified := clock w;
                  index := tally st;
                  sto := ptrStore;
                  maxage := if bool_decide (cmaxage c ≤ 0)
                            then period st `quot` divisor
                            else cmaxage c;
                  active := true |} in
      (s, {| store := {| sessions := <[key c := s]> (sessions st);
                         array := array st ++ [key c];
                         tally := tally st + 1;
                         period := period st |};
             heap := heap w ++ [∅];
             clock := clock w |})
  end.

(** [command.retrieve] *)
Definition command_retrieve (c : command) (w : World) : Session :=
  match sessions (store w) !! key c with
  | Some s => set_maxage (cmaxage c) s
  | None => Session_zero
  end.

(** The loop of [Store.destroy] that renumbers the sessions of the ids that
    moved; an id without a session gets the zero session, as a Go map read
    does. *)
Definition reindex (m : gmap UUID Session) (moved : list UUID) : gmap UUID Session :=
  foldl (λ m uuid,
           let se := default Session_zero (m !! uuid) in
           <[uuid := set_index (index se - 1) se]> m)
        m moved.

(** [Store.destroy]; the two slice expressions panic unless
    [0 <= se.index] and [se.index+1 <= len(s.array)]. *)
Definition Store_destroy (k : UUID) (s : Store) : option Store :=
  match sessions s !! k with
  | None => Some s
  | Some se =>
      if bool_decide (0 ≤ index se ∧ index se + 1 ≤ Z.of_nat (length (array s)))
      then
        let i := Z.to_nat (index se) in
        let array' := take i (array s) ++ drop (S i) (array s) in
        Some {| sessions := delete k (reindex (sessions s) (drop i array'));
                array := array';
                tally := tally s - 1;
                period := period s |}
      else None
  end.

(** [command.destroy] *)
Definition command_destroy (c : command) (w : World) : option World :=
  match sessions (store w) !! key c with
  | Some _ => s' ← Store_destroy (key c) (store w); Some (set_store s' w)
  | None => Some w
  end.

(** [command.touch] *)
Definition command_touch (c : command) (w : World) : Session * World :=
  let st := store w in
  match sessions st !! key c with
  | Some s =>
      let s := set_modified (clock w) s in
      (s, set_store {| sessions := <[key c := s]> (sessions st);
                       array := array st;
                       tally := tally st;
                       period := period st |} w)
  | None => (Session_zero, w)
  end.

(** One iteration of the loop of [command.timeout]. *)
Definition timeout_step (now : Time) (k : UUID) (s : Store) : option Store :=
  match sessions s !! k with
  | None => Some s
  | Some se =>
      if bool_decide (now - modified se > maxage se)
      then Store_destroy k s
      else Some s
  end.

(** The loop of [command.timeout].  Go leaves the order in which [range]
    visits a map unspecified: [order] is the order of this run.  An entry
    removed before it is reached is not visited. *)
Fixpoint sweep (now : Time) (order : list UUID) (s : Store) : option Store :=
  match order with
  | [] => Some s
  | k :: order => s' ← timeout_step now k s; sweep now order s'
  end.

(** [command.timeout] *)
Definition command_timeout (order : list UUID) (w : World) : option World :=
  s' ← sweep (clock w) order (store w); Some (set_store s' w).

(** [command.def]: [log.Fatal]. *)
Definition command_def (c : command) (w : World) : option World := None.

(** One iteration of [sessionServer]: the reply and the new state. *)
Definition serve (c : command) (order : list UUID) (w : World)
  : option (Session * World) :=
  match ccmd c with
  | create => Some (command_create c w)
  | activate => Some (command_retrieve c w, w)
  | deactivate => w' ← command_destroy c w; Some (Session_zero, w')
  | touch => Some (command_touch c w)
  | timecheck => w' ← command_timeout order w; Some (Session_zero, w')
  | exit => w' ← command_def c w; Some (Session_zero, w')
  end.

(** What happens to the state: time passes, or the server takes a command
    from its channel. *)
Inductive event :=
| Tick (d : N)
| Cmd (c : command) (order : list UUID).

Definition step (e : event) (w : World) : option World :=
  match e with
  | Tick d => Some (advance d w)
  | Cmd c order => snd <$> serve c order w
  end.

Fixpoint run (es : list event) (w : World) : option World :=
  match es with
  | [] => Some w
  | e :: es => w' ← step e w; run es w'
  end.

(** ** The store *)

(** [Init], at the time [t0] *)
Definition Init_store : Store :=
  {| sessions := ∅; array := []; tally := 0;
     period := Minute * defaultPeriod |}.

Definition Init (t0 : Time) : World :=
  {| store := Init_store; heap := []; clock := t0 |}.

(** [s.commands <- c; sess := <-res]: a method of the store hands its
    command to the server and waits for the reply.  None of them sends
    [timecheck], the only command that ranges over the map. *)
Definition call (c : command) (w : World) : option (Session * World) :=
  serve c [] w.

(** [Store.Period] *)
Definition Store_Period (t : Duration) (w : World) : Duration * World :=
  (period (store w),
   set_store {| sessions := sessions (store w); array := array (store w);
                tally := tally (store w); period := t |} w).

(** [Store.touch] *)
Definition Store_touch (sid : UUID) (w : World) : option (Session * World) :=
  call {| ccmd := touch; key := sid; cmaxage := 0 |} w.

(** The timer started by [Store.startTimer]: one [timecheck] command. *)
Definition timer_fires (order : list UUID) (w : World) : option World :=
  snd <$> serve {| ccmd := timecheck; key := 0%N; cmaxage := 0 |} order w.

Section Ram.

(** [uuid.UUID.Variant], of package [github.com/google/uuid]. *)
Variable Variant : UUID → variant.

(** [Store.Create] *)
Definition Store_Create (sid : UUID) (maxage : Z) (w : World)
  : option (Session * option error * World) :=
  if bool_decide (Variant sid = Invalid)
  then Some (Session_zero, Some (Errorf "Store.Create" ErrPoorForm), w)
  else
    '(sess, w') ← call {| ccmd := create; key := sid;
                          cmaxage := wrap64 (maxage * Second) |} w;
    if negb (active sess)
    then Some (Session_zero, Some (Errorf "Store.Create" ErrNoSession), w')
    else Some (sess, None, w').

(** [Store.Restore] *)
Definition Store_Restore (sid : UUID) (w : World)
  : option (Session * option error * World) :=
  if bool_decide (Variant sid = Invalid)
  then Some (Session_zero, Some (Errorf "Store.Restore" ErrPoorForm), w)
  else
    '(sess, w') ← call {| ccmd := touch; key := sid; cmaxage := 0 |} w;
    if negb (active sess)
    then Some (Session_zero, Some (Errorf "Store.Restore" ErrNoSession), w')
    else Some (sess, None, w').

(** [Store.Destroy] *)
Definition Store_Destroy (sid : UUID) (w : World)
  : option (option error * World) :=
  if bool_decide (Variant sid = Invalid)
  then Some (Some (Errorf "Store.Destroy" ErrNoSession), w)
  else
    '(_, w') ← call {| ccmd := deactivate; key := sid; cmaxage := 0 |} w;
    Some (None, w').

End Ram.

(** ** The sessions *)

(** [s.sto == nil || !s.active] *)
Definition unbound (s : Session) : bool :=
  match sto s with nilStore => true | ptrStore => negb (active s) end.

(** The assignment [s.data[key] = value]; assigning to an entry of a nil
    map panics. *)
Definition valueStore_assign (h : list (gmap string any)) (d : option loc)
  (k : string) (value : any) : option (list (gmap string any)) :=
  l ← d; Some (alter (λ vs, <[k := value]> vs) l h).

(** The read [s.data[key]] with its [ok]; a nil map reads as empty. *)
Definition valueStore_get (h : list (gmap string any)) (d : option loc)
  (k : string) : option any :=
  l ← d; vs ← h !! l; vs !! k.

(** [delete(s.data, key)]; on a nil map it does nothing. *)
Definition valueStore_delete (h : list (gmap string any)) (d : option loc)
  (k : string) : list (gmap string any) :=
  match d with
  | None => h
  | Some l => alter (λ vs, delete k vs) l h
  end.

(** [Session.Set]; the assignment is made by the caller, on the value
    store the reply of the server points to. *)
Definition Session_Set (s : Session) (k : string) (value : any) (w : World)
  : option (option error * World) :=
  if unbound s then Some (Some (Errorf "Session.Set" ErrTimedOut), w)
  else
    '(s, w') ← Store_touch (id s) w;
    if negb (active s)
    then Some (Some (Errorf "Session.Set" ErrTimedOut), w')
    else
      h ← valueStore_assign (heap w') (data s) k value;
      Some (None, set_heap h w').

(** [Session.Get] *)
Definition Session_Get (s : Session) (k : string) (w : World)
  : option (any * option error * World) :=
  if unbound s then Some (anyNil, Some (Errorf "Session.Get" ErrPoorForm), w)
  else
    '(s, w') ← Store_touch (id s) w;
    if negb (active s)
    then Some (anyNil, Some (Errorf "Session.Get" ErrNoSession), w')
    else
      match valueStore_get (heap w') (data s) k with
      | None => Some (anyNil, Some (Errorf "Session.Get" ErrNoData), w')
      | Some v => Some (v, None, w')
      end.

(** [Session.Del] *)
Definition Session_Del (s : Session) (k : string) (w : World)
  : option (option error * World) :=
  if unbound s then Some (Some (Errorf "Session.Del" ErrPoorForm), w)
  else
    '(s, w') ← Store_touch (id s) w;
    if negb (active s)
    then Some (Some (Errorf "Session.Del" ErrNoSession), w')
    else Some (None, set_heap (valueStore_delete (heap w') (data s) k) w').

(** [Session.Valid] *)
Definition Session_Valid (s : Session) : bool := active s.

(** The contents of the value store a session points to. *)
Definition contents (w : World) (s : Session) : option (gmap string any) :=
  l ← data s; heap w !! l.

(** ** The invariant of the table *)

(** The invariant in the form the proofs carry: [array] lists the keys of
    [sessions] without repetition, each at the position its session
    records, and [tally] is the length of [array]. *)
Record table_ok (s : Store) : Prop := {
  ok_nodup : NoDup (array s);
  ok_dom : ∀ k, k ∈ array s ↔ is_Some (sessions s !! k);
  ok_index : ∀ k se, sessions s !! k = Some se →
               0 ≤ index se ∧ array s !! Z.to_nat (index se) = Some k;
  ok_tally : tally s = Z.of_nat (length (array s))
}.

(** The invariant in the words of the data model: every key of [sessions]
    occurs in [array] at the position its session records and nowhere
    else; the length of [array], the size of [sessions] and [tally]
    agree. *)
Definition table_invariant (s : Store) : Prop :=
  (∀ k se, sessions s !! k = Some se →
     0 ≤ index se ∧ ∀ i, array s !! i = Some k ↔ i = Z.to_nat (index se))
  ∧ length (array s) = size (sessions s)
  ∧ tally s = Z.of_nat (size (sessions s)).

(** A session is due for removal at [now]. *)
Definition expired (now : Time) (se : Session) : bool :=
  bool_decide (now - modified se > maxage se).

Definition due (now : Time) (s : Store) (k : UUID) : bool :=
  from_option (expired now) false (sessions s !! k).

(** The sessions after [Store.destroy] has removed the session [se]. *)
Definition renumber (se se' : Session) : Session :=
  if bool_decide (index se < index se') then set_index (index se' - 1) se'
  else se'.

(** What a sweep over the keys [K] at [now] makes of a table. *)
Definition swept (now : Time) (K : list UUID) (s s' : Store) : Prop :=
  table_ok s' ∧ period s' = period s ∧
  array s' = filter (λ k, ¬ (k ∈ K ∧ due now s k)) (array s) ∧
  ∀ k, match sessions s !! k with
       | None => sessions s' !! k = None
       | Some se =>
           if decide (k ∈ K ∧ expired now se)
           then sessions s' !! k = None
           else ∃ i, sessions s' !! k = Some (set_index i se)
       end.

(** Every session of the table is as [create] made it: stored under its own
    id, active, bound to the store, with an allocated value store. *)
Definition bound_entries (w : World) : Prop :=
  ∀ k se, sessions (store w) !! k = Some se →
    id se = k ∧ active se = true ∧ sto se = ptrStore ∧
    ∃ l, data se = Some l ∧ (l < length (heap w))%nat.

Definition world_ok (w : World) : Prop :=
  table_invariant (store w) ∧ bound_entries w.

(** The events the server survives: every command but [exit]. *)
Definition served (e : event) : Prop :=
  match e with
  | Tick _ => True
  | Cmd c _ => ccmd c ≠ exit
  end.

(** The sessions of [s'] are sessions of [s], up to their [index]. *)
Definition entries_kept (s s' : Store) : Prop :=
  ∀ k se', sessions s' !! k = Some se' →
    ∃ se i, sessions s !! k = Some se ∧ se' = set_index i se.

(** The sentinels that say the session is no longer there: it timed out
    (expired) or it does not exist (gone). *)
Definition gone_class (e : sentinel) : bool :=
  match e with
  | ErrTimedOut | ErrNoSession => true
  | ErrPoorForm | ErrNoData => false
  end.

(** ** The rest of the package *)

(** No two sessions of the table share a value store. *)
Definition stores_apart (w : World) : Prop :=
  ∀ k1 k2 se1 se2,
    sessions (store w) !! k1 = Some se1 →
    sessions (store w) !! k2 = Some se2 →
    data se1 = data se2 → k1 = k2.

(** The sessions of [s'] are sessions of [s] that kept their id, value
    store, store pointer and [active] flag. *)
Definition entries_from (s s' : Store) : Prop :=
  ∀ k se', sessions s' !! k = Some se' →
    ∃ se, sessions s !! k = Some se ∧ id se' = id se ∧ data se' = data se
          ∧ sto se' = sto se ∧ active se' = active se.

(** One iteration of the loop of [Store.startTimer]: [time.Sleep(s.period)]
    returns after the period at the earliest, [late] is by how much it
    oversleeps, and then the [timecheck] command is served.  A period that
    is not positive makes [Sleep] return at once. *)
Definition timer_round (late : N) (order : list UUID) (w : World)
  : option World :=
  timer_fires order (advance (Z.to_N (period (store w)) + late) w).

(** What a user of the package can do to the state. *)
Inductive operation :=
| opSleep (d : N)
| opTimer (order : list UUID)
| opCreate (sid : UUID) (secs : Z)
| opRestore (sid : UUID)
| opDestroy (sid : UUID)
| opPeriod (t : Duration)
| opSet (s : Session) (k : string) (value : any)
| opGet (s : Session) (k : string)
| opDel (s : Session) (k : string).

Definition perform (Variant : UUID → variant) (o : operation) (w : World)
  : option World :=
  match o with
  | opSleep d => Some (advance d w)
  | opTimer order => timer_fires order w
  | opCreate sid secs => snd <$> Store_Create Variant sid secs w
  | opRestore sid => snd <$> Store_Restore Variant sid w
  | opDestroy sid => snd <$> Store_Destroy Variant sid w
  | opPeriod t => Some (Store_Period t w).2
  | opSet s k value => snd <$> Session_Set s k value w
  | opGet s k => snd <$> Session_Get s k w
  | opDel s k => snd <$> Session_Del s k w
  end.

Fixpoint perform_all (Variant : UUID → variant) (os : list operation)
  (w : World) : option World :=
  match os with
  | [] => Some w
  | o :: os => w' ← perform Variant o w; perform_all Variant os w'
  end.

(** ** Package [session]: the manager and its options *)

(** [manager]: the embedded [Manager] is nil or the store. *)
Record manager := mkManager { Manager : StorePtr }.

(** [MemType] *)
Definition RAM : Z := 0.

(** [NewManager], at the time [t0]: the manager and, for [RAM], the state
    [ram.Init] makes; for another memory type the manager is left with a
    nil [Manager]. *)
Definition NewManager (mem : Z) (t0 : Time) : manager * option World :=
  if bool_decide (mem = RAM)
  then ({| Manager := ptrStore |}, Some (Init t0))
  else ({| Manager := nilStore |}, None).

(** [m.Period(t)] through the embedded interface; calling a method of a nil
    interface panics. *)
Definition manager_Period (m : manager) (t : Duration) (w : World)
  : option (Duration * World) :=
  match Manager m with
  | nilStore => None
  | ptrStore => Some (Store_Period t w)
  end.

(** [OptMgrFunc], a function value: nil, or the closure [OptMgrFunc.Period]
    returns, which is kept as the two variables it captures, [o] and [t]. *)
Inductive OptMgrFunc :=
| nilOpt
| PeriodOpt (o : OptMgrFunc) (t : Duration).

(** [OptMgrFunc.Period] *)
Definition OptMgrFunc_Period (o : OptMgrFunc) (t : Duration) : OptMgrFunc :=
  PeriodOpt o t.

(** The call [opt(m)]: the body of the closure; calling nil panics. *)
Definition OptMgrFunc_call (opt : OptMgrFunc) (m : manager) (w : World)
  : option (OptMgrFunc * World) :=
  match opt with
  | nilOpt => None
  | PeriodOpt o t =>
      '(prev, w') ← manager_Period m t w;
      Some (OptMgrFunc_Period o prev, w')
  end.

(** The loop of [manager.Options] *)
Fixpoint Options_loop (m : manager) (opts : list OptMgrFunc)
  (previous : OptMgrFunc) (w : World) : option (OptMgrFunc * World) :=
  match opts with
  | [] => Some (previous, w)
  | opt :: opts =>
      '(previous, w') ← OptMgrFunc_call opt m w;
      Options_loop m opts previous w'
  end.

(** [manager.Options] *)
Definition manager_Options (m : manager) (opts : list OptMgrFunc) (w : World)
  : option (OptMgrFunc * World) :=
  Options_loop m opts nilOpt w.

(** The period an option sets. *)
Definition opt_period (opt : OptMgrFunc) : option Duration :=
  match opt with
  | nilOpt => None
  | PeriodOpt _ t => Some t
  end.

(** The invariant of the whole state: the table invariant, in the form the
    proofs carry, sessions that are bound and have a value store each. *)
Definition sound (w : World) : Prop :=
  table_ok (store w) ∧ bound_entries w ∧ stores_apart w.

(** The state after [touch] has found the session [se] under [sid]. *)
Definition touched (sid : UUID) (se : Session) (w : World) : World :=
  set_store {| sessions := <[sid := set_modified (clock w) se]>
                             (sessions (store w));
               array := array (store w);
               tally := tally (store w);
               period := period (store w) |} w.

(** The state after [create] has made the session of [sid], and that
    session. *)
Definition created_session (sid : UUID) (ttl : Duration) (w : World)
  : Session :=
  {| id := sid; data := Some (length (heap w)); created := clock w;
     modified := clock w; index := tally (store w); sto := ptrStore;
     maxage := if bool_decide (ttl ≤ 0)
               then period (store w) `quot` divisor else ttl;
     active := true |}.

Definition created_world (sid : UUID) (ttl : Duration) (w : World) : World :=
  {| store := {| sessions := <[sid := created_session sid ttl w]>
                               (sessions (store w));
                 array := array (store w) ++ [sid];
                 tally := tally (store w) + 1;
                 period := period (store w) |};
     heap := heap w ++ [∅];
     clock := clock w |}.

(** The time stamps of the sessions are in order: created, then last
    modified, then now. *)
Definition timely (w : World) : Prop :=
  ∀ k se, sessions (store w) !! k = Some se →
    created se ≤ modified se ∧ modified se ≤ clock w.

(** ** Example states *)

(** The instance of the parameter: [Variant] as package
    [github.com/google/uuid] computes it.  The package is not part of the
    repository; its [Variant] looks at the top bits of byte 8 of the id,
    [uuid[8] & 0xc0 == 0x80], [uuid[8] & 0xe0 == 0xc0],
    [uuid[8] & 0xe0 == 0xe0], and answers [RFC4122], [Microsoft], [Future]
    or, by default, [Reserved]: never [Invalid]. *)
Definition example_Variant (u : UUID) : variant :=
  let b := N.land (N.shiftr u 56) 255 in
  if bool_decide (N.land b 192 = 128%N) then RFC4122
  else if bool_decide (N.land b 224 = 192%N) then Microsoft
  else if bool_decide (N.land b 224 = 224%N) then Future
  else Reserved.


(** Session 1 is created with a TTL of five seconds, session 2 with the
    default one, and six seconds pass. *)
Definition example_events : list event :=
  [Cmd {| ccmd := create; key := 1%N; cmaxage := 5 * Second |} [];
   Cmd {| ccmd := create; key := 2%N; cmaxage := 0 |} [];
   Tick 6000000000].

Definition example_world : World :=
  default (Init 0) (run example_events (Init 0)).

(** Session 2 as it is stored then. *)
Definition example_session2 : Session :=
  {| id := 2%N; data := Some 1%nat; created := 0; modified := 0; index := 1;
     sto := ptrStore; maxage := 600000000000; active := true |}.

(** Session 1 as it is stored then. *)
Definition example_session1 : Session :=
  {| id := 1%N; data := Some 0%nat; created := 0; modified := 0; index := 0;
     sto := ptrStore; maxage := 5000000000; active := true |}.

(** A manager on the store. *)
Definition example_manager : manager := (NewManager RAM 0).1.

(** ** Lists and maps *)

Lemma reindex_lookup (m : gmap UUID Session) (l : list UUID) (k : UUID) :
  NoDup l →
  reindex m l !! k =
    if decide (k ∈ l)
    then Some (let se := default Session_zero (m !! k) in
               set_index (index se - 1) se)
    else m !! k.
Proof.
  unfold reindex. revert m. induction l as [|a l IH]; intros m Hnd; cbn [foldl].
  - case_decide as Hin; [by apply elem_of_nil in Hin | done].
  - apply NoDup_cons in Hnd as [Ha Hnd]. rewrite IH by done.
    destruct (decide (k = a)) as [->|Hne].
    + rewrite lookup_insert_eq, (decide_False _ _ Ha).
      by rewrite decide_True by left.
    + rewrite lookup_insert_ne by done. apply decide_ext.
      rewrite elem_of_cons. tauto.
Qed.

Lemma table_ok_invariant (s : Store) : table_ok s → table_invariant s.
Proof.
  intros [Hnd Hdom Hidx Htl].
  assert (size (sessions s) = length (array s)) as Hsz.
  { rewrite <- size_dom.
    assert (dom (sessions s) = list_to_set (array s)) as ->.
    { apply set_eq. intros k. rewrite elem_of_dom, elem_of_list_to_set.
      by rewrite Hdom. }
    by rewrite size_list_to_set. }
  split; [|split].
  - intros k se Hk. destruct (Hidx k se Hk) as [H0 Hpos]. split; [done|].
    intros i. split.
    + intros Hi. by eapply NoDup_lookup.
    + by intros ->.
  - done.
  - by rewrite Hsz.
Qed.

(** Removing the element at position [length l1]. *)
Lemma splice_middle (a : list UUID) (i : nat) (k : UUID) :
  a !! i = Some k →
  ∃ l1 l2, a = l1 ++ k :: l2 ∧ length l1 = i ∧
           take i a ++ drop (S i) a = l1 ++ l2 ∧
           drop i (take i a ++ drop (S i) a) = l2.
Proof.
  intros Hi. exists (take i a), (drop (S i) a).
  assert (length (take i a) = i) as Hlen.
  { rewrite length_take. apply lookup_lt_Some in Hi. lia. }
  split; [by rewrite take_drop_middle|]. split; [done|]. split; [done|].
  rewrite <- Hlen at 1. by rewrite drop_app_length.
Qed.

Lemma filter_ne_middle (l1 l2 : list UUID) (k : UUID) :
  NoDup (l1 ++ k :: l2) → filter (λ k', k' ≠ k) (l1 ++ k :: l2) = l1 ++ l2.
Proof.
  intros Hnd. apply NoDup_app in Hnd as (_ & Hl1 & Hnd).
  apply NoDup_cons in Hnd as [Hl2 _].
  rewrite filter_app, filter_cons_False by (intros ?; done).
  assert (∀ l : list UUID, k ∉ l → filter (λ k', k' ≠ k) l = l) as Hid.
  { intros l Hl. induction l as [|x l IH]; [done|].
    apply not_elem_of_cons in Hl as [? ?].
    rewrite filter_cons_True by done. by rewrite IH. }
  rewrite !Hid; [done | done |]. intros Hin. by apply (Hl1 k); [|left].
Qed.

Lemma Store_destroy_ok (s : Store) (k : UUID) (se : Session) :
  table_ok s → sessions s !! k = Some se →
  ∃ s', Store_destroy k s = Some s' ∧ table_ok s' ∧ period s' = period s ∧
        array s' = filter (λ k', k' ≠ k) (array s) ∧
        sessions s' !! k = None ∧
        ∀ k', k' ≠ k → sessions s' !! k' = renumber se <$> sessions s !! k'.
Proof.
  intros [Hnd Hdom Hidx Htl] Hk.
  destruct (Hidx k se Hk) as [H0 Hpos].
  pose proof (lookup_lt_Some _ _ _ Hpos) as Hlt.
  unfold Store_destroy. rewrite Hk, bool_decide_true by lia.
  destruct (splice_middle _ _ _ Hpos) as (l1 & l2 & Ha & Hl1 & Hsp & Hdr).
  cbv zeta. rewrite Hdr, Hsp. eexists. split; [done|].
  rewrite Ha in Hnd. pose proof Hnd as Hnd'.
  apply NoDup_app in Hnd' as (Hnd1 & Hdisj & Hnd2).
  apply NoDup_cons in Hnd2 as [Hk2 Hnd2].
  assert (k ∉ l1) as Hk1 by (intros ?; by apply (Hdisj k); [|left]).
  assert (∀ k' se', k' ≠ k → sessions s !! k' = Some se' →
            if decide (k' ∈ l2) then index se < index se'
            else index se' < index se) as Hside.
  { intros k' se' Hne Hk'. destruct (Hidx k' se' Hk') as [H0' Hpos'].
    rewrite Ha in Hpos'. case_decide as Hin.
    - destruct (decide (Z.to_nat (index se') < length l1)%nat) as [Hl|Hl].
      + rewrite lookup_app_l in Hpos' by done.
        apply list_elem_of_lookup_2 in Hpos'.
        exfalso. apply (Hdisj k' Hpos'). by right.
      + rewrite lookup_app_r in Hpos' by lia.
        destruct (Z.to_nat (index se') - length l1)%nat as [|n] eqn:E.
        * simpl in Hpos'. congruence.
        * lia.
    - destruct (decide (Z.to_nat (index se') < length l1)%nat) as [Hl|Hl];
        [lia|].
      rewrite lookup_app_r in Hpos' by lia.
      destruct (Z.to_nat (index se') - length l1)%nat as [|n] eqn:E.
      + simpl in Hpos'. congruence.
      + simpl in Hpos'. apply list_elem_of_lookup_2 in Hpos'. done. }
  assert (∀ k', k' ≠ k →
            delete k (reindex (sessions s) l2) !! k'
            = renumber se <$> sessions s !! k') as Hlook.
  { intros k' Hne. rewrite lookup_delete_ne by done.
    rewrite reindex_lookup by done.
    destruct (sessions s !! k') as [se'|] eqn:Hk'.
    - specialize (Hside k' se' Hne Hk'). simpl. unfold renumber.
      case_decide.
      + by rewrite bool_decide_true by done.
      + by rewrite bool_decide_false by lia.
    - rewrite decide_False; [done|]. intros Hin.
      assert (k' ∈ array s) as Hin'
        by (rewrite Ha; apply elem_of_app; right; by right).
      apply Hdom in Hin' as [? ?]. congruence. }
  split; [|split; [done|split; [|split]]].
  - split; simpl.
    + apply NoDup_app. split; [done|]. split; [|done].
      intros x Hx1 Hx2. apply (Hdisj x Hx1). by right.
    + intros k'. destruct (decide (k' = k)) as [->|Hne].
      * rewrite lookup_delete_eq. split.
        -- by intros [?|?]%elem_of_app.
        -- intros [? ?]; done.
      * rewrite Hlook by done. rewrite fmap_is_Some, <- Hdom, Ha.
        rewrite !elem_of_app, elem_of_cons. tauto.
    + intros k' se'' Hk''. destruct (decide (k' = k)) as [->|Hne].
      { by rewrite lookup_delete_eq in Hk''. }
      rewrite Hlook in Hk'' by done.
      destruct (sessions s !! k') as [se'|] eqn:Hk'; [|done].
      simpl in Hk''. injection Hk'' as <-.
      specialize (Hside k' se' Hne Hk').
      destruct (Hidx k' se' Hk') as [H0' Hpos']. rewrite Ha in Hpos'.
      unfold renumber. case_decide as Hin.
      * rewrite bool_decide_true by done. simpl. split; [lia|].
        rewrite lookup_app_r in Hpos' by lia.
        rewrite lookup_app_r by lia.
        replace (Z.to_nat (index se') - length l1)%nat
          with (S (Z.to_nat (index se' - 1) - length l1)) in Hpos' by lia.
        done.
      * rewrite bool_decide_false by lia. split; [done|].
        rewrite lookup_app_l in Hpos' by lia.
        by rewrite lookup_app_l by lia.
    + rewrite Htl, Ha, !length_app. simpl. lia.
  - simpl. rewrite Ha. by rewrite filter_ne_middle.
  - simpl. by rewrite lookup_delete_eq.
  - done.
Qed.

(** ** The sweep *)

Lemma set_index_same (se : Session) : set_index (index se) se = se.
Proof. by destruct se. Qed.

Lemma expired_set_index (now : Time) (i : Z) (se : Session) :
  expired now (set_index i se) = expired now se.
Proof. done. Qed.

Lemma filter_ext_in {A} (P1 P2 : A → Prop)
    `{!∀ x, Decision (P1 x), !∀ x, Decision (P2 x)} (l : list A) :
  (∀ x, x ∈ l → P1 x ↔ P2 x) → filter P1 l = filter P2 l.
Proof.
  induction l as [|a l IH]; intros Hiff; [done|].
  rewrite !filter_cons.
  rewrite IH by (intros x Hx; apply Hiff; by right).
  apply decide_ext, Hiff. by left.
Qed.

Lemma filter_all {A} (P : A → Prop) `{!∀ x, Decision (P x)} (l : list A) :
  (∀ x, x ∈ l → P x) → filter P l = l.
Proof.
  induction l as [|a l IH]; intros Hall; [done|].
  rewrite filter_cons_True by (apply Hall; by left).
  rewrite IH; [done|]. intros x Hx. apply Hall. by right.
Qed.

Lemma swept_refl (now : Time) (K : list UUID) (s : Store) :
  table_ok s → (∀ k, k ∈ K → due now s k = false) → swept now K s s.
Proof.
  intros Hok Hdue. split; [done|]. split; [done|]. split.
  - symmetry. apply filter_all. intros k _ [Hk Hd].
    rewrite (Hdue k Hk) in Hd. done.
  - intros k. destruct (sessions s !! k) as [se|] eqn:Hk; [|done].
    case_decide as Hd.
    + destruct Hd as [HK Hd]. specialize (Hdue k HK).
      unfold due in Hdue. rewrite Hk in Hdue. simpl in Hdue.
      rewrite Hdue in Hd. done.
    + exists (index se). by rewrite set_index_same.
Qed.

Lemma timeout_step_swept (now : Time) (k : UUID) (s : Store) :
  table_ok s → ∃ s', timeout_step now k s = Some s' ∧ swept now [k] s s'.
Proof.
  intros Hok. unfold timeout_step.
  destruct (sessions s !! k) as [se|] eqn:Hk.
  - fold (expired now se). destruct (expired now se) eqn:Hex.
    + destruct (Store_destroy_ok s k se Hok Hk)
        as (s' & Hd & Hok' & Hper & Harr & Hgone & Hrest).
      exists s'. split; [done|]. split; [done|]. split; [done|]. split.
      * rewrite Harr. apply list_filter_iff. intros k'.
        unfold due. rewrite list_elem_of_singleton. split.
        -- intros Hne [-> _]. done.
        -- intros Hn ->. apply Hn. split; [done|].
           rewrite Hk. simpl. by rewrite Hex.
      * intros k'. destruct (decide (k' = k)) as [->|Hne].
        -- rewrite Hk, Hex. rewrite decide_True; [done|].
           split; [by apply list_elem_of_singleton | done].
        -- rewrite (Hrest k' Hne).
           destruct (sessions s !! k') as [se'|]; [|done].
           rewrite decide_False
             by (rewrite list_elem_of_singleton; by intros [? _]).
           simpl. unfold renumber. case_bool_decide; eauto.
           exists (index se'). by rewrite set_index_same.
    + exists s. split; [done|]. apply swept_refl; [done|].
      intros k' ->%list_elem_of_singleton. unfold due. rewrite Hk. done.
  - exists s. split; [done|]. apply swept_refl; [done|].
    intros k' ->%list_elem_of_singleton. unfold due. by rewrite Hk.
Qed.

Lemma swept_cons (now : Time) (k : UUID) (K : list UUID) (s s1 s2 : Store) :
  table_ok s →
  swept now [k] s s1 → swept now K s1 s2 → swept now (k :: K) s s2.
Proof.
  intros Hok (Hok1 & Hper1 & Harr1 & Hses1) (Hok2 & Hper2 & Harr2 & Hses2).
  assert (∀ x, ¬ (x ∈ [k] ∧ due now s x) → due now s1 x = due now s x)
    as Hdue.
  { intros x Hx. specialize (Hses1 x). unfold due in *.
    destruct (sessions s !! x) as [se|] eqn:Hsx.
    - case_decide as Hd.
      + exfalso. apply Hx. by destruct Hd.
      + destruct Hses1 as [i ->]. done.
    - by rewrite Hses1. }
  split; [done|]. split; [congruence|]. split.
  - rewrite Harr2, Harr1, list_filter_filter.
    apply list_filter_iff. intros x. split.
    + intros [Hn2 Hn1] [[->|HK]%elem_of_cons Hd].
      { apply Hn1. split; [by apply list_elem_of_singleton|done]. }
      apply Hn2. split; [done|]. by rewrite Hdue.
    + intros Hn.
      assert (¬ (x ∈ [k] ∧ due now s x)) as Hn1.
      { intros [->%list_elem_of_singleton ?]. apply Hn. split; [by left|done]. }
      split; [|done]. intros [HK Hd]. apply Hn. split; [by right|].
      by rewrite <- Hdue.
  - intros x. specialize (Hses1 x). specialize (Hses2 x).
    destruct (sessions s !! x) as [se|] eqn:Hsx.
    + destruct (decide (x ∈ [k] ∧ expired now se)) as [Hd1|Hd1].
      * rewrite Hses1 in Hses2. rewrite decide_True; [done|].
        destruct Hd1 as [->%list_elem_of_singleton ?]. split; [by left|done].
      * destruct Hses1 as [i Hi]. rewrite Hi in Hses2.
        rewrite expired_set_index in Hses2.
        destruct (decide (x ∈ K ∧ expired now se)) as [Hd2|Hd2].
        -- rewrite decide_True; [done|]. destruct Hd2. split; [by right|done].
        -- rewrite decide_False.
           ++ destruct Hses2 as [j Hj]. exists j. by rewrite Hj.
           ++ intros [[->|HK]%elem_of_cons Hex].
              ** apply Hd1. split; [by apply list_elem_of_singleton|done].
              ** by apply Hd2.
    + by rewrite Hses1 in Hses2.
Qed.

Lemma sweep_swept (now : Time) (order : list UUID) (s : Store) :
  table_ok s → ∃ s', sweep now order s = Some s' ∧ swept now order s s'.
Proof.
  revert s. induction order as [|k order IH]; intros s Hok; simpl.
  - exists s. split; [done|]. apply swept_refl; [done|].
    intros k Hk. by apply elem_of_nil in Hk.
  - destruct (timeout_step_swept now k s Hok) as (s1 & -> & Hs1). simpl.
    destruct (IH s1 (proj1 Hs1)) as (s2 & -> & Hs2).
    exists s2. split; [done|]. by eapply swept_cons.
Qed.

(** ** The server keeps the invariant *)

Lemma table_invariant_ok (s : Store) : table_invariant s → table_ok s.
Proof.
  intros (Hidx & Hlen & Htl).
  set (keys := (map_to_list (sessions s)).*1).
  assert (NoDup keys) as Hnd by apply NoDup_fst_map_to_list.
  assert (∀ k, k ∈ keys ↔ is_Some (sessions s !! k)) as Hkeys.
  { intros k. unfold keys. rewrite list_elem_of_fmap. split.
    - intros ([k' se] & -> & Hin). apply elem_of_map_to_list in Hin. eauto.
    - intros [se Hk]. exists (k, se). split; [done|].
      by apply elem_of_map_to_list. }
  assert (keys ≡ₚ array s) as Hperm.
  { apply submseteq_length_Permutation.
    - apply NoDup_submseteq; [done|]. intros k [se Hk]%Hkeys.
      destruct (Hidx k se Hk) as [_ Hpos].
      eapply list_elem_of_lookup_2. by apply Hpos.
    - unfold keys. rewrite length_fmap, length_map_to_list. lia. }
  split.
  - by rewrite <- Hperm.
  - intros k. by rewrite <- Hperm.
  - intros k se Hk. destruct (Hidx k se Hk) as [H0 Hpos]. split; [done|].
    by apply Hpos.
  - lia.
Qed.

Lemma table_ok_Init : table_ok Init_store.
Proof.
  split; simpl.
  - constructor.
  - intros k. rewrite lookup_empty. split.
    + intros Hk. by apply elem_of_nil in Hk.
    + intros [? ?]. done.
  - intros k se Hk. by rewrite lookup_empty in Hk.
  - done.
Qed.

Lemma command_create_ok (c : command) (w : World) :
  table_ok (store w) → table_ok (store (command_create c w).2).
Proof.
  intros Hok. unfold command_create.
  destruct (sessions (store w) !! key c) as [se|] eqn:Hk; [done|].
  destruct Hok as [Hnd Hdom Hidx Htl]. cbv zeta. split; simpl.
  - apply NoDup_app. split; [done|]. split; [|apply NoDup_singleton].
    intros x Hx ->%list_elem_of_singleton.
    apply Hdom in Hx as [? ?]. congruence.
  - intros k. rewrite elem_of_app, list_elem_of_singleton, Hdom.
    destruct (decide (k = key c)) as [->|Hne].
    + rewrite lookup_insert_eq. split; eauto.
    + rewrite lookup_insert_ne by done. split; [|by left].
      intros [?|?]; done.
  - intros k se Hse. destruct (decide (k = key c)) as [->|Hne].
    + rewrite lookup_insert_eq in Hse. injection Hse as <-. simpl.
      split; [lia|]. rewrite Htl, Nat2Z.id.
      by rewrite lookup_app_r, Nat.sub_diag by lia.
    + rewrite lookup_insert_ne in Hse by done.
      destruct (Hidx k se Hse) as [H0 Hpos]. split; [done|].
      rewrite lookup_app_l; [done|]. by eapply lookup_lt_Some.
  - rewrite length_app, Htl. simpl. lia.
Qed.

Lemma command_touch_ok (c : command) (w : World) :
  table_ok (store w) → table_ok (store (command_touch c w).2).
Proof.
  intros Hok. unfold command_touch.
  destruct (sessions (store w) !! key c) as [se|] eqn:Hk; [|done].
  destruct Hok as [Hnd Hdom Hidx Htl]. split; simpl; [done| | |done].
  - intros k. rewrite Hdom. destruct (decide (k = key c)) as [->|Hne].
    + rewrite lookup_insert_eq, Hk. split; eauto.
    + by rewrite lookup_insert_ne.
  - intros k se' Hse. destruct (decide (k = key c)) as [->|Hne].
    + rewrite lookup_insert_eq in Hse. injection Hse as <-. simpl.
      by apply Hidx.
    + rewrite lookup_insert_ne in Hse by done. by apply Hidx.
Qed.

Lemma swept_entries_kept (now : Time) (K : list UUID) (s s' : Store) :
  swept now K s s' → entries_kept s s'.
Proof.
  intros (_ & _ & _ & Hses) k se' Hk'. specialize (Hses k).
  destruct (sessions s !! k) as [se|]; [|congruence].
  case_decide; [congruence|]. destruct Hses as [i Hi].
  exists se, i. split; [done|]. congruence.
Qed.

Lemma bound_entries_kept (w w' : World) :
  entries_kept (store w) (store w') →
  (length (heap w) ≤ length (heap w'))%nat →
  bound_entries w → bound_entries w'.
Proof.
  intros Hkept Hlen Hb k se' Hk'.
  destruct (Hkept k se' Hk') as (se & i & Hk & ->).
  destruct (Hb k se Hk) as (? & ? & ? & l & ? & ?). simpl.
  repeat (split; [done|]). exists l. split; [done|lia].
Qed.

Lemma command_timeout_spec (order : list UUID) (w : World) :
  table_ok (store w) →
  ∃ s', command_timeout order w = Some (set_store s' w) ∧
        swept (clock w) order (store w) s'.
Proof.
  intros Hok. unfold command_timeout.
  destruct (sweep_swept (clock w) order (store w) Hok) as (s' & -> & Hs').
  by exists s'.
Qed.

Lemma command_destroy_spec (c : command) (w : World) :
  table_ok (store w) →
  ∃ s', command_destroy c w = Some (set_store s' w) ∧ table_ok s' ∧
        entries_kept (store w) s' ∧ sessions s' !! key c = None ∧
        (sessions (store w) !! key c = None → s' = store w).
Proof.
  intros Hok. unfold command_destroy.
  destruct (sessions (store w) !! key c) as [se|] eqn:Hk.
  - destruct (Store_destroy_ok _ _ _ Hok Hk)
      as (s' & -> & Hok' & _ & _ & Hgone & Hrest).
    exists s'. split; [done|]. split; [done|]. split; [|done].
    intros k se' Hk'. destruct (decide (k = key c)) as [->|Hne];
      [congruence|].
    rewrite (Hrest k Hne) in Hk'.
    destruct (sessions (store w) !! k) as [se0|]; [|done].
    simpl in Hk'. injection Hk' as <-. exists se0. unfold renumber.
    case_bool_decide; eauto. exists (index se0).
    split; [done|]. by rewrite set_index_same.
  - exists (store w). split; [by destruct w|]. split; [done|].
    split; [|done]. intros k se' Hk'. exists se', (index se').
    split; [done|]. by rewrite set_index_same.
Qed.

Lemma step_ok (e : event) (w : World) :
  served e → table_ok (store w) → bound_entries w →
  ∃ w', step e w = Some w' ∧ table_ok (store w') ∧ bound_entries w'.
Proof.
  intros Hserved Hok Hb. destruct e as [d|c order]; simpl.
  { exists (advance d w). done. }
  simpl in Hserved. unfold serve. destruct (ccmd c) eqn:Hc; simpl; [| | | | |done].
  - eexists. split; [done|]. split; [by apply command_create_ok|].
    unfold command_create.
    destruct (sessions (store w) !! key c) as [se|] eqn:Hk; [done|].
    cbv zeta. intros k se Hse. simpl in Hse. simpl.
    rewrite length_app. simpl.
    destruct (decide (k = key c)) as [->|Hne].
    + rewrite lookup_insert_eq in Hse. injection Hse as <-. simpl.
      repeat (split; [done|]). eexists. split; [done|lia].
    + rewrite lookup_insert_ne in Hse by done.
      destruct (Hb k se Hse) as (? & ? & ? & l & ? & ?).
      repeat (split; [done|]). exists l. split; [done|lia].
  - by exists w.
  - destruct (command_destroy_spec c w Hok) as (s' & -> & Hok' & Hk & _).
    simpl. eexists. split; [done|]. split; [done|].
    eapply (bound_entries_kept w); [| |done]; simpl; [done|lia].
  - eexists. split; [done|]. split; [by apply command_touch_ok|].
    unfold command_touch.
    destruct (sessions (store w) !! key c) as [se|] eqn:Hk; [|done].
    intros k se' Hse. simpl in Hse. simpl.
    destruct (decide (k = key c)) as [->|Hne].
    + rewrite lookup_insert_eq in Hse. injection Hse as <-. simpl.
      by apply Hb.
    + rewrite lookup_insert_ne in Hse by done. by apply Hb.
  - destruct (command_timeout_spec order w Hok) as (s' & -> & Hs').
    simpl. eexists. split; [done|]. split; [apply Hs'|].
    eapply (bound_entries_kept w); [| |done]; simpl; [|lia].
    by eapply swept_entries_kept.
Qed.

Lemma run_ok (es : list event) (w : World) :
  Forall served es → table_ok (store w) → bound_entries w →
  ∃ w', run es w = Some w' ∧ table_ok (store w') ∧ bound_entries w'.
Proof.
  intros Hes. revert w. induction Hes as [|e es He Hes IH]; intros w Hok Hb.
  - by exists w.
  - destruct (step_ok e w He Hok Hb) as (w1 & Hw1 & Hok1 & Hb1).
    simpl. rewrite Hw1. simpl. by apply IH.
Qed.

Lemma world_ok_intro (w : World) :
  table_ok (store w) → bound_entries w → world_ok w.
Proof. intros ? ?. split; [by apply table_ok_invariant|done]. Qed.

Lemma world_ok_elim (w : World) :
  world_ok w → table_ok (store w) ∧ bound_entries w.
Proof. intros [? ?]. split; [by apply table_invariant_ok|done]. Qed.

Lemma reachable_ok (es : list event) (t0 : Time) :
  Forall served es → ∃ w, run es (Init t0) = Some w ∧ world_ok w.
Proof.
  intros Hes. destruct (run_ok es (Init t0) Hes) as (w & Hw & Hok & Hb).
  - apply table_ok_Init.
  - intros k se Hk. simpl in Hk. by rewrite lookup_empty in Hk.
  - exists w. split; [done|]. by apply world_ok_intro.
Qed.

(** ** What one command does to the entries *)


Lemma command_destroy_gone (c : command) (w w' : World) :
  command_destroy c w = Some w' → sessions (store w') !! key c = None.
Proof.
  unfold command_destroy.
  destruct (sessions (store w) !! key c) as [se|] eqn:Hk.
  - unfold Store_destroy. rewrite Hk. case_bool_decide; [|done].
    simpl. intros [= <-]. simpl. by rewrite lookup_delete_eq.
  - by intros [= <-].
Qed.



(** Only [touch] changes the last-modified time of an entry. *)
Lemma serve_modified (c : command) (order : list UUID) (w w' : World)
    (r : Session) (k : UUID) (se se' : Session) :
  table_ok (store w) →
  serve c order w = Some (r, w') →
  sessions (store w) !! k = Some se →
  sessions (store w') !! k = Some se' →
  modified se' = modified se
  ∨ (ccmd c = touch ∧ key c = k ∧ modified se' = clock w).
Proof.
  intros Hok Hserve Hk Hk'. unfold serve in Hserve.
  destruct (ccmd c) eqn:Hc; simpl in Hserve.
  - left. unfold command_create in Hserve.
    destruct (sessions (store w) !! key c) as [se0|] eqn:Hkc;
      simplify_eq/=; [congruence|].
    rewrite lookup_insert_ne in Hk' by congruence. congruence.
  - left. injection Hserve as _ <-. congruence.
  - left. destruct (command_destroy_spec c w Hok) as (s' & Hd & _ & Hkept & _).
    rewrite Hd in Hserve. simpl in Hserve. injection Hserve as _ <-.
    destruct (Hkept k se' Hk') as (se0 & i & Hk0 & ->).
    simpl. congruence.
  - unfold command_touch in Hserve.
    destruct (sessions (store w) !! key c) as [se0|] eqn:Hkc;
      simplify_eq/=; [|left; congruence].
    destruct (decide (key c = k)) as [Heq|Hne].
    + right. rewrite Heq, lookup_insert_eq in Hk'.
      injection Hk' as <-. done.
    + left. rewrite lookup_insert_ne in Hk' by done. congruence.
  - left. destruct (command_timeout_spec order w Hok) as (s' & Hd & Hs').
    rewrite Hd in Hserve. simpl in Hserve. injection Hserve as _ <-.
    destruct (swept_entries_kept _ _ _ _ Hs' k se' Hk')
      as (se0 & i & Hk0 & ->).
    simpl. congruence.
  - done.
Qed.

Lemma Store_touch_present (sid : UUID) (w : World) (se : Session) :
  sessions (store w) !! sid = Some se →
  Store_touch sid w =
    Some (set_modified (clock w) se,
          set_store {| sessions := <[sid := set_modified (clock w) se]>
                                     (sessions (store w));
                       array := array (store w);
                       tally := tally (store w);
                       period := period (store w) |} w).
Proof.
  intros Hk. unfold Store_touch, call, serve, command_touch. simpl.
  by rewrite Hk.
Qed.

Lemma Store_touch_absent (sid : UUID) (w : World) :
  sessions (store w) !! sid = None →
  Store_touch sid w = Some (Session_zero, w).
Proof.
  intros Hk. unfold Store_touch, call, serve, command_touch. simpl.
  by rewrite Hk.
Qed.

(** ** The claims *)

(** C1. Whatever sequence of commands the server executes from the empty
    table (create, touch, destroy, sweep, also activate, with time passing
    in between), it executes them all and the table invariant holds
    afterwards: every key of [sessions] is in [array] exactly once, at the
    position its session records, and the length of [array], the size of
    [sessions] and the counter agree. *)
Theorem table_invariant_reachable (es : list event) (t0 : Time) :
  Forall served es →
  ∃ w, run es (Init t0) = Some w ∧ table_invariant (store w).
Proof.
  intros Hes. destruct (reachable_ok es t0 Hes) as (w & Hw & Hinv & _).
  by exists w.
Qed.

Section Facade.

Variable Variant : UUID → variant.

(** C3. [Create] on an id that is in the table fails: it returns the
    inactive zero session together with an error, and the state, the value
    stores of the existing sessions included, is left as it was. *)
Theorem Create_collision (sid : UUID) (secs : Z) (w : World) :
  is_Some (sessions (store w) !! sid) →
  ∃ e, Store_Create Variant sid secs w = Some (Session_zero, Some e, w)
       ∧ Session_Valid Session_zero = false
       ∧ Unwrap e = if bool_decide (Variant sid = Invalid)
                    then ErrPoorForm else ErrNoSession.
Proof.
  intros [se Hk]. unfold Store_Create. case_bool_decide.
  - eexists. split; [done|]. done.
  - unfold call, serve, command_create. simpl. rewrite Hk. simpl.
    eexists. split; [done|]. done.
Qed.

(** C5. [Destroy] on a valid id that is not in the table returns no error
    and leaves the state as it was; whenever a first [Destroy] on a valid
    id has returned, a second one returns no error and leaves the state the
    first one produced; and on a table that satisfies the invariant the
    first one does return, without an error. *)
Theorem Destroy_idempotent (sid : UUID) (w : World) :
  Variant sid ≠ Invalid →
  (sessions (store w) !! sid = None →
   Store_Destroy Variant sid w = Some (None, w))
  ∧ (∀ r w1, Store_Destroy Variant sid w = Some (r, w1) →
             Store_Destroy Variant sid w1 = Some (None, w1))
  ∧ (table_invariant (store w) →
     ∃ w1, Store_Destroy Variant sid w = Some (None, w1)).
Proof.
  intros Hv. unfold Store_Destroy. rewrite !bool_decide_false by done.
  unfold call, serve. simpl.
  assert (∀ w0, sessions (store w0) !! sid = None →
            command_destroy {| ccmd := deactivate; key := sid;
                               cmaxage := 0 |} w0 = Some w0) as Habsent.
  { intros w0 Hk. unfold command_destroy. simpl. by rewrite Hk. }
  split; [|split].
  - intros Hk. by rewrite (Habsent w Hk).
  - intros r w1 Hd.
    destruct (command_destroy _ w) as [w'|] eqn:Hw'; simplify_eq/=.
    apply command_destroy_gone in Hw'. simpl in Hw'.
    by rewrite (Habsent w1 Hw').
  - intros Hinv%table_invariant_ok.
    destruct (command_destroy_spec {| ccmd := deactivate; key := sid;
                                      cmaxage := 0 |} w Hinv)
      as (s' & -> & _).
    simpl. by eexists.
Qed.

(** C7. [Create] with a valid id that is not in the table, followed by
    [Restore] with the same id, succeeds both times, and the session
    [Restore] returns has the value store of the session [Create]
    returned, with the same (empty) contents. *)
Theorem Create_Restore (sid : UUID) (secs : Z) (d : N) (w : World) :
  Variant sid ≠ Invalid → sessions (store w) !! sid = None →
  ∃ s1 w1 s2 w2,
    Store_Create Variant sid secs w = Some (s1, None, w1)
    ∧ Store_Restore Variant sid (advance d w1) = Some (s2, None, w2)
    ∧ data s2 = data s1
    ∧ contents w2 s2 = contents w1 s1
    ∧ contents w1 s1 = Some ∅.
Proof.
  intros Hv Hk. unfold Store_Create, Store_Restore.
  rewrite !bool_decide_false by done.
  unfold call, serve, command_create, command_touch. simpl. rewrite Hk. simpl.
  do 4 eexists. split; [done|]. simpl. rewrite lookup_insert_eq. simpl.
  split; [done|]. split; [done|]. unfold contents. simpl.
  rewrite lookup_app_r, Nat.sub_diag by done. done.
Qed.

(** C8. The session [create] makes for an id that is not in the table is
    active, is the one stored under the id, and has the requested TTL when
    that is positive and otherwise the sweep period of the store divided by
    two.  So has the session of every successful [Create], whose requested
    TTL is the given number of seconds as a [time.Duration]. *)
Theorem Create_ttl :
  (∀ c w, sessions (store w) !! key c = None →
     let s := (command_create c w).1 in
     active s = true
     ∧ sessions (store (command_create c w).2) !! key c = Some s
     ∧ maxage s = if bool_decide (0 < cmaxage c) then cmaxage c
                  else period (store w) `quot` 2)
  ∧ (∀ sid secs w w' s,
       Store_Create Variant sid secs w = Some (s, None, w') →
       let requested := wrap64 (secs * Second) in
       sessions (store w') !! sid = Some s
       ∧ maxage s = (if bool_decide (0 < requested) then requested
                     else period (store w) `quot` 2)
       ∧ (0 < secs ≤ 9223372036 → requested = secs * Second)).
Proof.
  split.
  - intros c w Hk. unfold command_create. rewrite Hk. simpl.
    rewrite lookup_insert_eq. split; [done|]. split; [done|].
    unfold divisor. repeat case_bool_decide; done || lia.
  - intros sid secs w w' s. unfold Store_Create. case_bool_decide; [done|].
    unfold call, serve, command_create. simpl.
    destruct (sessions (store w) !! sid) as [se|] eqn:Hk; simpl; [done|].
    intros [= <- <-]. simpl. rewrite lookup_insert_eq. split; [done|]. split.
    + unfold divisor. repeat case_bool_decide; done || lia.
    + intros Hs. unfold wrap64, Second. rewrite Z.mod_small; lia.
Qed.

(** C2 (amended).  For an id in the table: the [activate] command, which
    [command.retrieve] serves, replies with the entry under the requested
    TTL and leaves the state, the stored last-modified time included, as it
    was.  [Store.Restore] however sends [touch]: it sets the stored
    last-modified time of the entry to the current time, changes nothing
    else, and returns that entry.  And a command that changes the stored
    last-modified time of an entry is a [touch] of that entry's id. *)
Theorem Restore_refreshes_modified (sid : UUID) (w : World) (se : Session) :
  world_ok w → Variant sid ≠ Invalid →
  sessions (store w) !! sid = Some se →
  (∀ d order,
     serve {| ccmd := activate; key := sid; cmaxage := d |} order w
     = Some (set_maxage d se, w))
  ∧ Store_Restore Variant sid w =
      Some (set_modified (clock w) se, None,
            set_store {| sessions := <[sid := set_modified (clock w) se]>
                                       (sessions (store w));
                         array := array (store w);
                         tally := tally (store w);
                         period := period (store w) |} w)
  ∧ (∀ c order r w' k e e',
       serve c order w = Some (r, w') →
       sessions (store w) !! k = Some e →
       sessions (store w') !! k = Some e' →
       modified e' ≠ modified e →
       ccmd c = touch ∧ key c = k ∧ modified e' = clock w).
Proof.
  intros [Hok Hb]%world_ok_elim Hv Hk. split; [|split].
  - intros d order. unfold serve, command_retrieve. simpl. by rewrite Hk.
  - unfold Store_Restore. rewrite bool_decide_false by done.
    fold (Store_touch sid w). rewrite (Store_touch_present sid w se Hk).
    simpl. destruct (Hb sid se Hk) as (_ & -> & _). done.
  - intros c order r w' k e e' Hserve He He' Hne.
    destruct (serve_modified c order w w' r k e e' Hok Hserve He He');
      [done|done].
Qed.


End Facade.

(** C4 (amended).  On a table that satisfies the invariant, a sweep that
    visits every key returns, leaves the value stores and the clock alone
    and keeps the invariant.  A session is removed if and only if the time
    since its last-modified time exceeds its own TTL.  Every other session
    stays in the table with all its fields but [index] unchanged; [array]
    is the former [array] without the removed ids, so that the [index] of
    a session that stays is its position there.  No session appears. *)
Theorem sweep_removes_expired (order : list UUID) (w : World) :
  table_invariant (store w) →
  (∀ k, is_Some (sessions (store w) !! k) → k ∈ order) →
  ∃ w', timer_fires order w = Some w'
    ∧ heap w' = heap w ∧ clock w' = clock w
    ∧ table_invariant (store w')
    ∧ array (store w')
      = filter (λ k, ¬ due (clock w) (store w) k) (array (store w))
    ∧ (∀ k, sessions (store w) !! k = None →
            sessions (store w') !! k = None)
    ∧ (∀ k se, sessions (store w) !! k = Some se →
         (sessions (store w') !! k = None
          ↔ clock w - modified se > maxage se)
         ∧ (¬ clock w - modified se > maxage se →
            ∃ i, sessions (store w') !! k = Some (set_index i se))).
Proof.
  intros Hok%table_invariant_ok Hall. unfold timer_fires, serve. simpl.
  destruct (command_timeout_spec order w Hok)
    as (s' & -> & Hok' & _ & Harr & Hses).
  simpl. eexists. split; [done|]. simpl.
  split; [done|]. split; [done|]. split; [by apply table_ok_invariant|].
  split; [|split].
  - rewrite Harr. apply filter_ext_in. intros k Hk.
    apply (ok_dom _ Hok) in Hk. specialize (Hall k Hk). tauto.
  - intros k Hk. specialize (Hses k). by rewrite Hk in Hses.
  - intros k se Hk. specialize (Hses k). rewrite Hk in Hses.
    assert (k ∈ order) as Hin by (apply Hall; eauto).
    unfold expired in Hses. case_decide as Hd.
    + destruct Hd as [_ Hd%bool_decide_unpack]. split; [done|]. done.
    + assert (¬ clock w - modified se > maxage se) as Hn.
      { intros Hex. apply Hd. split; [done|]. by apply bool_decide_pack. }
      destruct Hses as [i Hi]. split; [|by eauto].
      rewrite Hi. split; [done|]. done.
Qed.

(** C6 (amended).  On a session whose id is not in the table, or that is
    unbound (no store, or inactive, as the zero session is), [Set], [Get]
    and [Del] return an error and leave the state, every value store
    included, as it was.  The error of [Set] is [ErrTimedOut]; the error of
    [Get] and [Del] is [ErrNoSession] when the session is bound, and
    [ErrPoorForm] when it is unbound. *)
Theorem Session_gone (s : Session) (k : string) (v : any) (w : World) :
  sessions (store w) !! id s = None ∨ unbound s = true →
  Session_Set s k v w = Some (Some (Errorf "Session.Set" ErrTimedOut), w)
  ∧ Session_Get s k w
    = Some (anyNil,
            Some (Errorf "Session.Get"
                    (if unbound s then ErrPoorForm else ErrNoSession)), w)
  ∧ Session_Del s k w
    = Some (Some (Errorf "Session.Del"
                    (if unbound s then ErrPoorForm else ErrNoSession)), w).
Proof.
  intros Hs. unfold Session_Set, Session_Get, Session_Del.
  destruct (unbound s) eqn:Hu; [done|].
  destruct Hs as [Hk|?]; [|done].
  by rewrite (Store_touch_absent _ _ Hk).
Qed.


(** ** The claims on the example states *)

Lemma example_served : Forall served example_events.
Proof. repeat constructor; done. Qed.

Lemma example_world_ok : world_ok example_world.
Proof.
  destruct (reachable_ok example_events 0 example_served) as (w & Hw & Hok).
  unfold example_world. by rewrite Hw.
Qed.

Lemma example_keys (k : UUID) :
  is_Some (sessions (store example_world) !! k) → k ∈ [1%N; 2%N].
Proof.
  intros Hk.
  apply (ok_dom _ (table_invariant_ok _ (proj1 example_world_ok))) in Hk.
  exact Hk.
Qed.

Lemma table_invariant_reachable_witness :
  Forall served example_events
  ∧ ∃ w, run example_events (Init 0) = Some w ∧ table_invariant (store w).
Proof.
  split; [exact example_served|].
  exact (table_invariant_reachable example_events 0 example_served).
Defined.

(** C2, as stated, fails: [Restore] six seconds after the creation of
    session 2 moves its stored last-modified time from 0 to six seconds. *)
Lemma Restore_moves_modified :
  (modified <$> sessions (store example_world) !! 2%N) = Some 0
  ∧ ∃ s w', Store_Restore example_Variant 2%N example_world
            = Some (s, None, w')
            ∧ (modified <$> sessions (store w') !! 2%N) = Some (6 * Second)
            ∧ (modified <$> sessions (store w') !! 2%N)
              ≠ (modified <$> sessions (store example_world) !! 2%N).
Proof.
  split; [by vm_compute|]. do 2 eexists.
  split; [by vm_compute|]. split; by vm_compute.
Qed.

Lemma Restore_refreshes_modified_witness :
  world_ok example_world
  ∧ example_Variant 2%N ≠ Invalid
  ∧ sessions (store example_world) !! 2%N = Some example_session2
  ∧ ∃ w', Store_Restore example_Variant 2%N example_world
          = Some (set_modified (clock example_world) example_session2,
                  None, w').
Proof.
  assert (example_Variant 2%N ≠ Invalid) as Hv by (vm_compute; discriminate).
  assert (sessions (store example_world) !! 2%N = Some example_session2)
    as Hk by (vm_compute; reflexivity).
  split; [exact example_world_ok|]. split; [exact Hv|]. split; [exact Hk|].
  destruct (Restore_refreshes_modified example_Variant 2%N example_world
              example_session2 example_world_ok Hv Hk) as (_ & Hr & _).
  eexists. exact Hr.
Defined.

Lemma Create_collision_witness :
  is_Some (sessions (store example_world) !! 1%N)
  ∧ ∃ e, Store_Create example_Variant 1%N 3 example_world
         = Some (Session_zero, Some e, example_world)
         ∧ Session_Valid Session_zero = false
         ∧ Unwrap e = if bool_decide (example_Variant 1%N = Invalid)
                      then ErrPoorForm else ErrNoSession.
Proof.
  assert (is_Some (sessions (store example_world) !! 1%N)) as Hk
    by (vm_compute; eauto).
  split; [exact Hk|].
  exact (Create_collision example_Variant 1%N 3 example_world Hk).
Defined.

(** C4, as stated, fails: the sweep removes session 1 and keeps session 2,
    which is not due, but the entry it keeps has index 0, not 1. *)
Lemma sweep_renumbers_survivor :
  sessions (store example_world) !! 2%N = Some example_session2
  ∧ expired (clock example_world) example_session2 = false
  ∧ ∃ w', timer_fires [1%N; 2%N] example_world = Some w'
          ∧ sessions (store w') !! 2%N
            = Some (set_index 0 example_session2)
          ∧ sessions (store w') !! 2%N
            ≠ sessions (store example_world) !! 2%N.
Proof.
  split; [by vm_compute|]. split; [by vm_compute|]. eexists.
  split; [by vm_compute|]. split; by vm_compute.
Qed.

Lemma sweep_removes_expired_witness :
  table_invariant (store example_world)
  ∧ (∀ k, is_Some (sessions (store example_world) !! k) → k ∈ [1%N; 2%N])
  ∧ ∃ w', timer_fires [1%N; 2%N] example_world = Some w'
          ∧ table_invariant (store w')
          ∧ array (store w')
            = filter (λ k, ¬ due (clock example_world) (store example_world) k)
                     (array (store example_world)).
Proof.
  split; [exact (proj1 example_world_ok)|]. split; [exact example_keys|].
  destruct (sweep_removes_expired [1%N; 2%N] example_world
              (proj1 example_world_ok) example_keys)
    as (w' & Hw' & _ & _ & Hinv & Harr & _).
  exists w'. split; [exact Hw'|]. split; [exact Hinv|exact Harr].
Defined.

Lemma Destroy_idempotent_witness :
  example_Variant 1%N ≠ Invalid
  ∧ table_invariant (store example_world)
  ∧ ∃ w1, Store_Destroy example_Variant 1%N example_world = Some (None, w1)
          ∧ Store_Destroy example_Variant 1%N w1 = Some (None, w1).
Proof.
  assert (example_Variant 1%N ≠ Invalid) as Hv by (vm_compute; discriminate).
  split; [exact Hv|]. split; [exact (proj1 example_world_ok)|].
  destruct (Destroy_idempotent example_Variant 1%N example_world Hv)
    as (_ & Htwice & Hret).
  destruct (Hret (proj1 example_world_ok)) as (w1 & Hw1).
  exists w1. split; [exact Hw1|]. exact (Htwice _ _ Hw1).
Defined.

(** C6, as stated, fails: [Get] on the zero session fails with
    [ErrPoorForm], the error of a poorly formed id, and not with one that
    says the session timed out or is gone. *)
Lemma Get_unbound_error :
  Session_Get Session_zero "k" (Init 0)
  = Some (anyNil, Some (Errorf "Session.Get" ErrPoorForm), Init 0)
  ∧ gone_class ErrPoorForm = false.
Proof. split; reflexivity. Qed.

Lemma Session_gone_witness :
  (sessions (store (Init 0)) !! id example_session2 = None
   ∨ unbound example_session2 = true)
  ∧ Session_Set example_session2 "k" (anyInt 1) (Init 0)
    = Some (Some (Errorf "Session.Set" ErrTimedOut), Init 0)
  ∧ Session_Get example_session2 "k" (Init 0)
    = Some (anyNil, Some (Errorf "Session.Get" ErrNoSession), Init 0)
  ∧ Session_Del example_session2 "k" (Init 0)
    = Some (Some (Errorf "Session.Del" ErrNoSession), Init 0).
Proof.
  assert (sessions (store (Init 0)) !! id example_session2 = None
          ∨ unbound example_session2 = true) as Hs by (left; reflexivity).
  split; [exact Hs|].
  exact (Session_gone example_session2 "k" (anyInt 1) (Init 0) Hs).
Defined.

Lemma Create_Restore_witness :
  example_Variant 3%N ≠ Invalid
  ∧ sessions (store example_world) !! 3%N = None
  ∧ ∃ s1 w1 s2 w2,
      Store_Create example_Variant 3%N 60 example_world = Some (s1, None, w1)
      ∧ Store_Restore example_Variant 3%N (advance 0 w1) = Some (s2, None, w2)
      ∧ data s2 = data s1
      ∧ contents w2 s2 = contents w1 s1
      ∧ contents w1 s1 = Some ∅.
Proof.
  assert (example_Variant 3%N ≠ Invalid) as Hv by (vm_compute; discriminate).
  assert (sessions (store example_world) !! 3%N = None) as Hk
    by (vm_compute; reflexivity).
  split; [exact Hv|]. split; [exact Hk|].
  exact (Create_Restore example_Variant 3%N 60 0 example_world Hv Hk).
Defined.

Lemma Create_ttl_witness :
  sessions (store example_world) !! 3%N = None
  ∧ maxage (command_create {| ccmd := create; key := 3%N; cmaxage := 0 |}
              example_world).1 = 10 * Minute
  ∧ ∃ s w', Store_Create example_Variant 3%N 0 example_world
            = Some (s, None, w')
            ∧ sessions (store w') !! 3%N = Some s
            ∧ maxage s = 10 * Minute.
Proof.
  assert (sessions (store example_world) !! 3%N = None) as Hk
    by (vm_compute; reflexivity).
  assert (∃ s w', Store_Create example_Variant 3%N 0 example_world
                  = Some (s, None, w')) as (s & w' & Hc)
    by (vm_compute; eauto).
  destruct (Create_ttl example_Variant) as [Hcmd Hsto].
  split; [exact Hk|]. split.
  - destruct (Hcmd {| ccmd := create; key := 3%N; cmaxage := 0 |}
                example_world Hk) as (_ & _ & Hm).
    rewrite Hm. reflexivity.
  - exists s, w'. split; [exact Hc|].
    destruct (Hsto _ _ _ _ _ Hc) as (Hs & Hm & _).
    split; [exact Hs|]. rewrite Hm. reflexivity.
Defined.




(** ** The operations keep the state sound *)

Lemma entries_kept_from (s s' : Store) : entries_kept s s' → entries_from s s'.
Proof.
  intros Hkept k se' Hk'. destruct (Hkept k se' Hk') as (se & i & Hk & ->).
  by exists se.
Qed.

Lemma entries_from_refl (s : Store) : entries_from s s.
Proof. intros k se Hk. by exists se. Qed.

Lemma bound_entries_from (w w' : World) :
  entries_from (store w) (store w') →
  (length (heap w) ≤ length (heap w'))%nat →
  bound_entries w → bound_entries w'.
Proof.
  intros Hfrom Hlen Hb k se' Hk'.
  destruct (Hfrom k se' Hk') as (se & Hk & Hid & Hdata & Hsto & Hact).
  destruct (Hb k se Hk) as (? & ? & ? & l & ? & ?).
  rewrite Hid, Hdata, Hsto, Hact. repeat (split; [done|]).
  exists l. split; [done|lia].
Qed.

Lemma stores_apart_from (w w' : World) :
  entries_from (store w) (store w') → stores_apart w → stores_apart w'.
Proof.
  intros Hfrom Hap k1 k2 se1 se2 Hk1 Hk2 Hd.
  destruct (Hfrom k1 se1 Hk1) as (e1 & He1 & _ & Hd1 & _).
  destruct (Hfrom k2 se2 Hk2) as (e2 & He2 & _ & Hd2 & _).
  apply (Hap k1 k2 e1 e2 He1 He2). congruence.
Qed.

Lemma sound_from (w w' : World) :
  table_ok (store w') → entries_from (store w) (store w') →
  (length (heap w) ≤ length (heap w'))%nat →
  sound w → sound w'.
Proof.
  intros Hok Hfrom Hlen (_ & Hb & Hap). split; [done|]. split.
  - by eapply bound_entries_from.
  - by eapply stores_apart_from.
Qed.

Lemma sound_world_ok (w : World) : sound w → world_ok w.
Proof. intros (Hok & Hb & _). by apply world_ok_intro. Qed.

Lemma sound_Init (t0 : Time) : sound (Init t0).
Proof.
  split; [apply table_ok_Init|]. split.
  - intros k se Hk. simpl in Hk. by rewrite lookup_empty in Hk.
  - intros k1 k2 se1 se2 Hk1. simpl in Hk1. by rewrite lookup_empty in Hk1.
Qed.

Lemma command_touch_from (c : command) (w : World) :
  entries_from (store w) (store (command_touch c w).2)
  ∧ heap (command_touch c w).2 = heap w
  ∧ clock (command_touch c w).2 = clock w.
Proof.
  unfold command_touch.
  destruct (sessions (store w) !! key c) as [se|] eqn:Hk; simpl.
  - split; [|done]. intros k se' Hk'. simpl in Hk'.
    destruct (decide (k = key c)) as [->|Hne].
    + rewrite lookup_insert_eq in Hk'. injection Hk' as <-. by exists se.
    + rewrite lookup_insert_ne in Hk' by done. by exists se'.
  - split; [apply entries_from_refl|done].
Qed.

Lemma command_touch_sound (c : command) (w : World) :
  sound w → sound (command_touch c w).2.
Proof.
  intros Hs. destruct (command_touch_from c w) as (Hfrom & Hh & _).
  eapply sound_from; [|done| |done].
  - apply command_touch_ok, Hs.
  - by rewrite Hh.
Qed.

Lemma command_create_sound (c : command) (w : World) :
  sound w → sound (command_create c w).2.
Proof.
  intros (Hok & Hb & Hap). split; [by apply command_create_ok|].
  unfold command_create.
  destruct (sessions (store w) !! key c) as [se0|] eqn:Hk; [done|].
  cbv zeta. split.
  - intros k se Hse. simpl in Hse. simpl. rewrite length_app. simpl.
    destruct (decide (k = key c)) as [->|Hne].
    + rewrite lookup_insert_eq in Hse. injection Hse as <-. simpl.
      repeat (split; [done|]). eexists. split; [done|lia].
    + rewrite lookup_insert_ne in Hse by done.
      destruct (Hb k se Hse) as (? & ? & ? & l & ? & ?).
      repeat (split; [done|]). exists l. split; [done|lia].
  - intros k1 k2 se1 se2 Hk1 Hk2 Hd. simpl in Hk1, Hk2.
    destruct (decide (k1 = key c)) as [->|Hne1];
      destruct (decide (k2 = key c)) as [->|Hne2]; [done| | |].
    + rewrite lookup_insert_eq in Hk1. injection Hk1 as <-.
      rewrite lookup_insert_ne in Hk2 by done. simpl in Hd.
      destruct (Hb k2 se2 Hk2) as (_ & _ & _ & l & Hl & Hlt).
      rewrite Hl in Hd. injection Hd as Hd. lia.
    + rewrite lookup_insert_eq in Hk2. injection Hk2 as <-.
      rewrite lookup_insert_ne in Hk1 by done. simpl in Hd.
      destruct (Hb k1 se1 Hk1) as (_ & _ & _ & l & Hl & Hlt).
      rewrite Hl in Hd. injection Hd as Hd. lia.
    + rewrite lookup_insert_ne in Hk1, Hk2 by done. by eapply Hap.
Qed.

Lemma command_destroy_sound (c : command) (w : World) :
  sound w → ∃ w', command_destroy c w = Some w' ∧ sound w'.
Proof.
  intros Hs.
  destruct (command_destroy_spec c w (proj1 Hs))
    as (s' & Hd & Hok' & Hkept & _).
  eexists. split; [done|].
  eapply (sound_from w); [done| |done|done].
  by apply entries_kept_from.
Qed.

Lemma command_timeout_sound (order : list UUID) (w : World) :
  sound w → ∃ w', command_timeout order w = Some w' ∧ sound w'.
Proof.
  intros Hs.
  destruct (command_timeout_spec order w (proj1 Hs)) as (s' & Hd & Hs').
  eexists. split; [done|].
  eapply (sound_from w); [apply Hs'| |done|done].
  simpl. by eapply entries_kept_from, swept_entries_kept.
Qed.

Lemma Store_touch_sound (sid : UUID) (w : World) :
  sound w →
  ∃ r w', Store_touch sid w = Some (r, w') ∧ sound w' ∧ heap w' = heap w
          ∧ (active r = true →
             ∃ l, data r = Some l ∧ (l < length (heap w))%nat).
Proof.
  intros Hs. unfold Store_touch, call, serve. simpl.
  set (c := {| ccmd := touch; key := sid; cmaxage := 0 |}).
  exists (command_touch c w).1, (command_touch c w).2.
  split; [by destruct (command_touch c w)|].
  split; [by apply command_touch_sound|].
  destruct (command_touch_from c w) as (_ & Hh & _). split; [done|].
  unfold command_touch. simpl.
  destruct (sessions (store w) !! sid) as [se|] eqn:Hk; simpl; [|done].
  intros _. by destruct (proj1 (proj2 Hs) sid se Hk) as (_ & _ & _ & Hl).
Qed.

Lemma set_heap_sound (h : list (gmap string any)) (w : World) :
  length h = length (heap w) → sound w → sound (set_heap h w).
Proof.
  intros Hlen Hs. eapply (sound_from w); [apply Hs| | |done].
  - apply entries_from_refl.
  - simpl. lia.
Qed.

Lemma Store_Period_sound (t : Duration) (w : World) :
  sound w → sound (Store_Period t w).2.
Proof.
  intros Hs. eapply (sound_from w); [| |done|done].
  - destruct Hs as [[Hnd Hdom Hidx Htl] _]. by split.
  - intros k se Hk. by exists se.
Qed.

Lemma perform_sound (Variant : UUID → variant) (o : operation) (w : World) :
  sound w → ∃ w', perform Variant o w = Some w' ∧ sound w'.
Proof.
  intros Hs. destruct o as [d|order|sid secs|sid|sid|t|s k v|s k|s k]; simpl.
  - by exists (advance d w).
  - unfold timer_fires, serve. simpl.
    destruct (command_timeout_sound order w Hs) as (w' & -> & Hs').
    by exists w'.
  - unfold Store_Create. case_bool_decide; [by exists w|].
    unfold call, serve. simpl.
    set (c := {| ccmd := create; key := sid;
                 cmaxage := wrap64 (secs * Second) |}).
    pose proof (command_create_sound c w Hs) as Hs'.
    destruct (command_create c w) as [r w']. simpl in *.
    exists w'. by destruct (active r).
  - unfold Store_Restore. case_bool_decide; [by exists w|].
    fold (Store_touch sid w).
    destruct (Store_touch_sound sid w Hs) as (r & w' & -> & Hs' & _).
    simpl. exists w'. by destruct (active r).
  - unfold Store_Destroy. case_bool_decide; [by exists w|].
    unfold call, serve. simpl.
    destruct (command_destroy_sound
                {| ccmd := deactivate; key := sid; cmaxage := 0 |} w Hs)
      as (w' & -> & Hs').
    by exists w'.
  - eexists. split; [done|]. by apply Store_Period_sound.
  - unfold Session_Set. destruct (unbound s); [by exists w|].
    destruct (Store_touch_sound (id s) w Hs) as (r & w' & -> & Hs' & Hh & Hl).
    simpl. destruct (active r); simpl; [|by exists w'].
    destruct (Hl eq_refl) as (l & -> & _). simpl. eexists. split; [done|].
    apply set_heap_sound; [|done]. by rewrite length_alter.
  - unfold Session_Get. destruct (unbound s); [by exists w|].
    destruct (Store_touch_sound (id s) w Hs) as (r & w' & -> & Hs' & _).
    simpl. destruct (active r); simpl; [|by exists w'].
    destruct (valueStore_get _ _ _); by exists w'.
  - unfold Session_Del. destruct (unbound s); [by exists w|].
    destruct (Store_touch_sound (id s) w Hs) as (r & w' & -> & Hs' & _).
    simpl. destruct (active r); simpl; [|by exists w'].
    eexists. split; [done|]. apply set_heap_sound; [|done].
    unfold valueStore_delete. destruct (data r); [|done].
    by rewrite length_alter.
Qed.

Lemma perform_all_sound (Variant : UUID → variant) (os : list operation)
    (w : World) :
  sound w → ∃ w', perform_all Variant os w = Some w' ∧ sound w'.
Proof.
  revert w. induction os as [|o os IH]; intros w Hs; simpl.
  - by exists w.
  - destruct (perform_sound Variant o w Hs) as (w1 & -> & Hs1). simpl.
    by apply IH.
Qed.

(** ** What the methods do on a sound state *)

Lemma Store_eq (s1 s2 : Store) :
  sessions s1 = sessions s2 → array s1 = array s2 → tally s1 = tally s2 →
  period s1 = period s2 → s1 = s2.
Proof. destruct s1, s2. simpl. by intros -> -> -> ->. Qed.

Lemma run_sound (es : list event) (w : World) :
  Forall served es → sound w → ∃ w', run es w = Some w' ∧ sound w'.
Proof.
  intros Hes. revert w. induction Hes as [|e es He Hes IH]; intros w Hs.
  - by exists w.
  - assert (∃ w1, step e w = Some w1 ∧ sound w1) as (w1 & Hw1 & Hs1).
    { destruct e as [d|c order]; simpl.
      - by exists (advance d w).
      - simpl in He. unfold serve. destruct (ccmd c); simpl; [| | | | |done].
        + eexists. split; [done|]. by apply command_create_sound.
        + by exists w.
        + destruct (command_destroy_sound c w Hs) as (w' & -> & Hs').
          by exists w'.
        + eexists. split; [done|]. by apply command_touch_sound.
        + destruct (command_timeout_sound order w Hs) as (w' & -> & Hs').
          by exists w'. }
    simpl. rewrite Hw1. simpl. by apply IH.
Qed.

Lemma Store_Create_new (Variant : UUID → variant) (sid : UUID) (secs : Z)
    (w : World) :
  Variant sid ≠ Invalid → sessions (store w) !! sid = None →
  Store_Create Variant sid secs w
  = Some (created_session sid (wrap64 (secs * Second)) w, None,
          created_world sid (wrap64 (secs * Second)) w).
Proof.
  intros Hv Hk. unfold Store_Create. rewrite bool_decide_false by done.
  unfold call, serve, command_create. simpl. by rewrite Hk.
Qed.

Lemma Store_Restore_absent (Variant : UUID → variant) (sid : UUID)
    (w : World) :
  Variant sid ≠ Invalid → sessions (store w) !! sid = None →
  Store_Restore Variant sid w
  = Some (Session_zero, Some (Errorf "Store.Restore" ErrNoSession), w).
Proof.
  intros Hv Hk. unfold Store_Restore. rewrite bool_decide_false by done.
  fold (Store_touch sid w). by rewrite (Store_touch_absent _ _ Hk).
Qed.

Lemma Store_Destroy_present (Variant : UUID → variant) (sid : UUID)
    (w : World) (se : Session) :
  Variant sid ≠ Invalid → table_ok (store w) →
  sessions (store w) !! sid = Some se →
  ∃ s', Store_Destroy Variant sid w = Some (None, set_store s' w)
        ∧ table_ok s' ∧ period s' = period (store w)
        ∧ tally s' = tally (store w) - 1
        ∧ array s' = filter (λ k', k' ≠ sid) (array (store w))
        ∧ sessions s' !! sid = None
        ∧ ∀ k', k' ≠ sid →
            sessions s' !! k' = renumber se <$> sessions (store w) !! k'.
Proof.
  intros Hv Hok Hk. unfold Store_Destroy. rewrite bool_decide_false by done.
  unfold call, serve, command_destroy. simpl. rewrite Hk.
  destruct (Store_destroy_ok _ _ _ Hok Hk)
    as (s' & Hd & Hok' & Hper & Harr & Hgone & Hrest).
  rewrite Hd. simpl. exists s'. split; [done|]. split; [done|].
  split; [done|]. split; [|done].
  unfold Store_destroy in Hd. rewrite Hk in Hd.
  case_bool_decide; [|done]. by injection Hd as <-.
Qed.

Lemma touched_table_ok (sid : UUID) (se : Session) (w : World) :
  table_ok (store w) → sessions (store w) !! sid = Some se →
  table_ok (store (touched sid se w)).
Proof.
  intros Hok Hk.
  pose proof (command_touch_ok {| ccmd := touch; key := sid; cmaxage := 0 |}
                w Hok) as Hok'.
  unfold command_touch in Hok'. simpl in Hok'. by rewrite Hk in Hok'.
Qed.

Lemma Session_Set_at (s : Session) (k : string) (v : any) (w : World)
    (se : Session) (l : nat) :
  unbound s = false → sessions (store w) !! id s = Some se →
  active se = true → data se = Some l →
  Session_Set s k v w
  = Some (None, set_heap (alter (λ vs, <[k := v]> vs) l (heap w))
                         (touched (id s) se w)).
Proof.
  intros Hu Hk Hact Hl. unfold Session_Set. rewrite Hu.
  rewrite (Store_touch_present _ _ _ Hk). simpl. by rewrite Hact, Hl.
Qed.

Lemma Session_Del_at (s : Session) (k : string) (w : World)
    (se : Session) (l : nat) :
  unbound s = false → sessions (store w) !! id s = Some se →
  active se = true → data se = Some l →
  Session_Del s k w
  = Some (None, set_heap (alter (λ vs, delete k vs) l (heap w))
                         (touched (id s) se w)).
Proof.
  intros Hu Hk Hact Hl. unfold Session_Del. rewrite Hu.
  rewrite (Store_touch_present _ _ _ Hk). simpl. by rewrite Hact, Hl.
Qed.

Lemma Session_Get_at (s : Session) (k : string) (w : World)
    (se : Session) (l : nat) (vs : gmap string any) :
  unbound s = false → sessions (store w) !! id s = Some se →
  active se = true → data se = Some l → heap w !! l = Some vs →
  Session_Get s k w
  = Some (match vs !! k with
          | Some v => (v, None)
          | None => (anyNil, Some (Errorf "Session.Get" ErrNoData))
          end, touched (id s) se w).
Proof.
  intros Hu Hk Hact Hl Hvs. unfold Session_Get. rewrite Hu.
  rewrite (Store_touch_present _ _ _ Hk). simpl. rewrite Hact. simpl.
  unfold valueStore_get. rewrite Hl. simpl. rewrite Hvs. simpl.
  by destruct (vs !! k).
Qed.

(** The sweep keeps a session that is not due and removes one that is. *)
Lemma sweep_keeps (order : list UUID) (w : World) (k : UUID) (e : Session) :
  table_ok (store w) → sessions (store w) !! k = Some e →
  ¬ clock w - modified e > maxage e →
  ∃ w' i, timer_fires order w = Some w' ∧ heap w' = heap w
          ∧ sessions (store w') !! k = Some (set_index i e).
Proof.
  intros Hok Hk Hn. unfold timer_fires, serve. simpl.
  destruct (command_timeout_spec order w Hok) as (s' & -> & _ & _ & _ & Hses).
  simpl. specialize (Hses k). rewrite Hk in Hses.
  rewrite decide_False in Hses.
  - destruct Hses as [i Hi]. by exists (set_store s' w), i.
  - intros [_ Hex%bool_decide_unpack]. done.
Qed.

Lemma sweep_drops (order : list UUID) (w : World) (k : UUID) (e : Session) :
  table_ok (store w) → sessions (store w) !! k = Some e →
  clock w - modified e > maxage e → k ∈ order →
  ∃ s', timer_fires order w = Some (set_store s' w) ∧ table_ok s'
        ∧ entries_kept (store w) s' ∧ sessions s' !! k = None.
Proof.
  intros Hok Hk Hex Hin. unfold timer_fires, serve. simpl.
  destruct (command_timeout_spec order w Hok) as (s' & -> & Hs').
  simpl. exists s'. split; [done|]. split; [apply Hs'|].
  split; [by eapply swept_entries_kept|].
  destruct Hs' as (_ & _ & _ & Hses). specialize (Hses k).
  rewrite Hk in Hses. rewrite decide_True in Hses; [done|].
  split; [done|]. by apply bool_decide_pack.
Qed.

Lemma Options_loop_snoc (m : manager) (opts : list OptMgrFunc)
    (x previous : OptMgrFunc) (w : World) :
  Options_loop m (opts ++ [x]) previous w
  = '(_, w') ← Options_loop m opts previous w; OptMgrFunc_call x m w'.
Proof.
  revert previous w. induction opts as [|opt opts IH]; intros previous w.
  - simpl. destruct (OptMgrFunc_call x m w) as [[p w']|]; done.
  - simpl. destruct (OptMgrFunc_call opt m w) as [[p w']|]; simpl; [|done].
    apply IH.
Qed.

(** ** More about the store and its sessions *)

(** X1.  Whatever the users of the package do, in whatever order, every call
    returns (nothing panics) and the state is sound: the table satisfies
    its invariant, every stored session has the id it is stored under, is
    active and bound to the store, and no two sessions share a value
    store. *)
Theorem operations_keep_sound (Variant : UUID → variant)
    (os : list operation) (t0 : Time) :
  ∃ w, perform_all Variant os (Init t0) = Some w
       ∧ table_invariant (store w) ∧ bound_entries w ∧ stores_apart w.
Proof.
  destruct (perform_all_sound Variant os (Init t0) (sound_Init t0))
    as (w & Hw & Hok & Hb & Hap).
  exists w. split; [done|]. split; [by apply table_ok_invariant|done].
Qed.

Section Methods.

Variable Variant : UUID → variant.

(** X2.  [Destroy] of a session that is in the table removes its id from
    [array] and from [sessions], takes one off the counter, moves the
    [index] of every session that was behind it down by exactly one and
    leaves every other session, the value stores and the clock as they
    were; the table still satisfies its invariant. *)
Theorem Destroy_shifts (sid : UUID) (w : World) (se : Session) :
  Variant sid ≠ Invalid → table_invariant (store w) →
  sessions (store w) !! sid = Some se →
  ∃ w1, Store_Destroy Variant sid w = Some (None, w1)
    ∧ heap w1 = heap w ∧ clock w1 = clock w
    ∧ period (store w1) = period (store w)
    ∧ tally (store w1) = tally (store w) - 1
    ∧ array (store w1) = filter (λ k, k ≠ sid) (array (store w))
    ∧ sessions (store w1) !! sid = None
    ∧ (∀ k, sessions (store w) !! k = None →
            sessions (store w1) !! k = None)
    ∧ (∀ k e, k ≠ sid → sessions (store w) !! k = Some e →
         sessions (store w1) !! k
         = Some (if bool_decide (index se < index e)
                 then set_index (index e - 1) e else e))
    ∧ table_invariant (store w1).
Proof.
  intros Hv Hok%table_invariant_ok Hk.
  destruct (Store_Destroy_present Variant sid w se Hv Hok Hk)
    as (s' & Hd & Hok' & Hper & Htl & Harr & Hgone & Hrest).
  exists (set_store s' w). split; [done|]. simpl.
  repeat (split; [done|]). split; [|split].
  - intros k Hnone. destruct (decide (k = sid)) as [->|Hne]; [done|].
    by rewrite (Hrest k Hne), Hnone.
  - intros k e Hne He. by rewrite (Hrest k Hne), He.
  - by apply table_ok_invariant.
Qed.

(** X3.  [Create] of a valid id that is not in the table returns an active,
    bound session with that id, created no later than it was last modified
    and that no later than the time after the call, and placed at the end
    of [array]: its [index] is the former counter, which goes up by one.
    Its value store is empty and is the value store of no other session;
    the other sessions and their value stores are as they were. *)
Theorem Create_appends (sid : UUID) (secs : Z) (w : World) :
  Variant sid ≠ Invalid → bound_entries w →
  sessions (store w) !! sid = None →
  ∃ s w1, Store_Create Variant sid secs w = Some (s, None, w1)
    ∧ id s = sid ∧ Session_Valid s = true ∧ unbound s = false
    ∧ created s ≤ modified s ∧ modified s ≤ clock w1
    ∧ index s = tally (store w)
    ∧ sessions (store w1) !! sid = Some s
    ∧ array (store w1) = array (store w) ++ [sid]
    ∧ tally (store w1) = tally (store w) + 1
    ∧ contents w1 s = Some ∅
    ∧ (∀ k e, sessions (store w) !! k = Some e →
         sessions (store w1) !! k = Some e
         ∧ data e ≠ data s ∧ contents w1 e = contents w e).
Proof.
  intros Hv Hb Hk. rewrite (Store_Create_new Variant sid secs w Hv Hk).
  do 2 eexists. split; [done|]. simpl.
  repeat (split; [done|]). split; [by rewrite lookup_insert_eq|].
  repeat (split; [done|]). split.
  - unfold contents. simpl. by rewrite lookup_app_r, Nat.sub_diag.
  - intros k e He. destruct (Hb k e He) as (_ & _ & _ & l & Hl & Hlt).
    split; [|split].
    + rewrite lookup_insert_ne; [done|]. congruence.
    + rewrite Hl. intros [= ->]. lia.
    + unfold contents. simpl. rewrite Hl. simpl.
      by rewrite lookup_app_l.
Qed.

(** X4.  [Create] followed by [Destroy] of the same id gives the table back as
    it was; only the value store made for the session stays behind on the
    heap. *)
Theorem Create_Destroy (sid : UUID) (secs : Z) (w : World) :
  Variant sid ≠ Invalid → table_invariant (store w) →
  sessions (store w) !! sid = None →
  ∃ s w1 w2, Store_Create Variant sid secs w = Some (s, None, w1)
    ∧ Store_Destroy Variant sid w1 = Some (None, w2)
    ∧ store w2 = store w ∧ heap w2 = heap w ++ [∅] ∧ clock w2 = clock w.
Proof.
  intros Hv Hok%table_invariant_ok Hk.
  rewrite (Store_Create_new Variant sid secs w Hv Hk).
  set (s := created_session sid (wrap64 (secs * Second)) w).
  set (w1 := created_world sid (wrap64 (secs * Second)) w).
  assert (table_ok (store w1)) as Hok1.
  { pose proof (command_create_ok
                  {| ccmd := create; key := sid;
                     cmaxage := wrap64 (secs * Second) |} w Hok) as H.
    unfold command_create in H. simpl in H. by rewrite Hk in H. }
  assert (sessions (store w1) !! sid = Some s) as Hk1
    by (simpl; by rewrite lookup_insert_eq).
  destruct (Store_Destroy_present Variant sid w1 s Hv Hok1 Hk1)
    as (s' & Hd & _ & Hper & Htl & Harr & Hgone & Hrest).
  exists s, w1, (set_store s' w1). split; [done|]. split; [done|].
  split; [|done]. simpl.
  assert (sid ∉ array (store w)) as Hnin.
  { intros Hin%(ok_dom _ Hok). destruct Hin. congruence. }
  apply Store_eq; simpl.
  - apply map_eq. intros k. destruct (decide (k = sid)) as [->|Hne].
    + by rewrite Hgone, Hk.
    + rewrite (Hrest k Hne). simpl. rewrite lookup_insert_ne by done.
      destruct (sessions (store w) !! k) as [e|] eqn:He; [|done].
      simpl. f_equal. unfold renumber. rewrite bool_decide_false; [done|].
      destruct (ok_index _ Hok k e He) as [H0 Hpos].
      apply lookup_lt_Some in Hpos. pose proof (ok_tally _ Hok) as Htally.
      simpl. lia.
  - rewrite Harr. simpl.
    rewrite filter_app, filter_cons_False, filter_nil, app_nil_r
      by (intros ?; done).
    apply filter_all. intros x Hx ->. done.
  - rewrite Htl. simpl. lia.
  - done.
Qed.

End Methods.

(** X5.  [Set] followed by [Get] of the same key, on the same session or on any
    other bound copy of it, however long after (no sweep in between),
    returns the value that was set, without an error; what [Get] returns
    for another key is what it returned before the [Set]. *)
Theorem Set_then_Get (s s' : Session) (k : string) (v : any) (d : N)
    (w : World) :
  world_ok w → unbound s = false → unbound s' = false → id s' = id s →
  is_Some (sessions (store w) !! id s) →
  ∃ w1 w2, Session_Set s k v w = Some (None, w1)
    ∧ Session_Get s' k (advance d w1) = Some (v, None, w2)
    ∧ ∀ k', k' ≠ k →
        fst <$> Session_Get s' k' (advance d w1)
        = fst <$> Session_Get s' k' w.
Proof.
  intros [_ Hb] Hu Hu' Hid [se Hk].
  destruct (Hb _ _ Hk) as (_ & Hact & _ & l & Hl & Hlt).
  destruct (lookup_lt_is_Some_2 (heap w) l Hlt) as [vs Hvs].
  rewrite (Session_Set_at s k v w se l Hu Hk Hact Hl).
  set (w1 := set_heap _ _).
  assert (sessions (store (advance d w1)) !! id s'
          = Some (set_modified (clock w) se)) as Hk1
    by (rewrite Hid; simpl; by rewrite lookup_insert_eq).
  assert (heap (advance d w1) !! l = Some (<[k := v]> vs)) as Hvs1
    by (simpl; by rewrite list_lookup_alter_eq, Hvs).
  assert (∀ k', Session_Get s' k' (advance d w1) = _) as Hget
    by (intros k'; exact (Session_Get_at s' k' _ _ l _ Hu' Hk1 Hact Hl Hvs1)).
  do 2 eexists. split; [done|]. split.
  - rewrite Hget, lookup_insert_eq. done.
  - intros k' Hne. rewrite Hget, lookup_insert_ne by done.
    rewrite <- Hid in Hk.
    rewrite (Session_Get_at s' k' w se l vs Hu' Hk Hact Hl Hvs). done.
Qed.

(** X6.  [Del] followed by [Get] of the same key returns no value and the error
    [ErrNoData], whether the key was there or not; [Del] itself returns no
    error in both cases, and what [Get] returns for another key is what it
    returned before the [Del]. *)
Theorem Del_then_Get (s s' : Session) (k : string) (d : N) (w : World) :
  world_ok w → unbound s = false → unbound s' = false → id s' = id s →
  is_Some (sessions (store w) !! id s) →
  ∃ w1 w2, Session_Del s k w = Some (None, w1)
    ∧ Session_Get s' k (advance d w1)
      = Some (anyNil, Some (Errorf "Session.Get" ErrNoData), w2)
    ∧ ∀ k', k' ≠ k →
        fst <$> Session_Get s' k' (advance d w1)
        = fst <$> Session_Get s' k' w.
Proof.
  intros [_ Hb] Hu Hu' Hid [se Hk].
  destruct (Hb _ _ Hk) as (_ & Hact & _ & l & Hl & Hlt).
  destruct (lookup_lt_is_Some_2 (heap w) l Hlt) as [vs Hvs].
  rewrite (Session_Del_at s k w se l Hu Hk Hact Hl).
  set (w1 := set_heap _ _).
  assert (sessions (store (advance d w1)) !! id s'
          = Some (set_modified (clock w) se)) as Hk1
    by (rewrite Hid; simpl; by rewrite lookup_insert_eq).
  assert (heap (advance d w1) !! l = Some (delete k vs)) as Hvs1
    by (simpl; by rewrite list_lookup_alter_eq, Hvs).
  assert (∀ k', Session_Get s' k' (advance d w1) = _) as Hget
    by (intros k'; exact (Session_Get_at s' k' _ _ l _ Hu' Hk1 Hact Hl Hvs1)).
  do 2 eexists. split; [done|]. split.
  - rewrite Hget, lookup_delete_eq. done.
  - intros k' Hne. rewrite Hget, lookup_delete_ne by done.
    rewrite <- Hid in Hk.
    rewrite (Session_Get_at s' k' w se l vs Hu' Hk Hact Hl Hvs). done.
Qed.

(** X7.  [Set] and [Del] on one session leave every other session of the table
    and the contents of its value store as they were. *)
Theorem Set_Del_isolated (s : Session) (k : string) (v : any) (w : World)
    (k2 : UUID) (e2 : Session) :
  world_ok w → stores_apart w → unbound s = false →
  is_Some (sessions (store w) !! id s) →
  k2 ≠ id s → sessions (store w) !! k2 = Some e2 →
  ∃ w1 w2, Session_Set s k v w = Some (None, w1)
    ∧ sessions (store w1) !! k2 = Some e2
    ∧ contents w1 e2 = contents w e2
    ∧ Session_Del s k w = Some (None, w2)
    ∧ sessions (store w2) !! k2 = Some e2
    ∧ contents w2 e2 = contents w e2.
Proof.
  intros [_ Hb] Hap Hu [se Hk] Hne Hk2.
  destruct (Hb _ _ Hk) as (_ & Hact & _ & l & Hl & Hlt).
  destruct (Hb _ _ Hk2) as (_ & _ & _ & l2 & Hl2 & _).
  assert (l ≠ l2) as Hll.
  { intros ->. apply Hne. apply (Hap k2 (id s) e2 se Hk2 Hk). congruence. }
  rewrite (Session_Set_at s k v w se l Hu Hk Hact Hl).
  rewrite (Session_Del_at s k w se l Hu Hk Hact Hl).
  assert (∀ f, contents (set_heap (alter f l (heap w)) (touched (id s) se w))
                  e2 = contents w e2) as Hsame.
  { intros f. unfold contents. rewrite Hl2. simpl.
    by rewrite list_lookup_alter_ne. }
  assert (sessions (store (touched (id s) se w)) !! k2 = Some e2) as Hk2'
    by (simpl; by rewrite lookup_insert_ne).
  do 2 eexists. split; [done|]. split; [exact Hk2'|].
  split; [apply Hsame|]. split; [done|]. split; [exact Hk2'|apply Hsame].
Qed.

(** X8.  [Get] is a read: whatever it returns, it leaves every value store,
    [array], the counter, the period and the set of ids of the table as
    they were, and changes no session but the one it touches. *)
Theorem Get_reads (s : Session) (k : string) (w w1 : World)
    (r : any * option error) :
  Session_Get s k w = Some (r, w1) →
  heap w1 = heap w ∧ clock w1 = clock w
  ∧ array (store w1) = array (store w) ∧ tally (store w1) = tally (store w)
  ∧ period (store w1) = period (store w)
  ∧ dom (sessions (store w1)) = dom (sessions (store w))
  ∧ ∀ k', k' ≠ id s → sessions (store w1) !! k' = sessions (store w) !! k'.
Proof.
  unfold Session_Get. destruct (unbound s).
  { intros [= _ <-]. done. }
  destruct (sessions (store w) !! id s) as [se|] eqn:Hk.
  - rewrite (Store_touch_present _ _ _ Hk). simpl.
    assert (dom (<[id s := set_modified (clock w) se]> (sessions (store w)))
            = dom (sessions (store w))) as Hdom.
    { by apply dom_insert_lookup_L. }
    destruct (active se); simpl.
    + destruct (valueStore_get _ _ _); intros [= _ <-]; simpl;
        repeat (split; [done|]); intros k' Hne;
        by rewrite lookup_insert_ne.
    + intros [= _ <-]. simpl. repeat (split; [done|]). intros k' Hne.
      by rewrite lookup_insert_ne.
  - rewrite (Store_touch_absent _ _ Hk). simpl. intros [= _ <-]. done.
Qed.

Section Methods2.

Variable Variant : UUID → variant.

(** X9.  [Destroy] followed by [Create] of the same id gives the id a new,
    empty value store: what the former session held is gone.  A copy of
    the former session is then a handle on the new one: [Get] through it
    finds no data, and [Set] through it writes into the new value store. *)
Theorem Destroy_Create_fresh (sid : UUID) (secs : Z) (s0 : Session)
    (w : World) :
  Variant sid ≠ Invalid → world_ok w →
  is_Some (sessions (store w) !! sid) →
  id s0 = sid → unbound s0 = false →
  ∃ w1 s2 w2, Store_Destroy Variant sid w = Some (None, w1)
    ∧ Store_Create Variant sid secs w1 = Some (s2, None, w2)
    ∧ contents w2 s2 = Some ∅
    ∧ (∀ k, ∃ w3, Session_Get s0 k w2
                  = Some (anyNil, Some (Errorf "Session.Get" ErrNoData), w3))
    ∧ (∀ k v, ∃ w3 e3, Session_Set s0 k v w2 = Some (None, w3)
                ∧ sessions (store w3) !! sid = Some e3
                ∧ data e3 = data s2
                ∧ contents w3 e3 = Some {[k := v]}).
Proof.
  intros Hv [Hok Hb]%world_ok_elim [se Hk] Hid Hu.
  destruct (Store_Destroy_present Variant sid w se Hv Hok Hk)
    as (s' & Hd & _ & _ & _ & _ & Hgone & _).
  set (w1 := set_store s' w).
  assert (sessions (store w1) !! sid = None) as Hk1 by done.
  pose proof (Store_Create_new Variant sid secs w1 Hv Hk1) as Hc.
  set (s2 := created_session _ _ _) in Hc.
  set (w2 := created_world _ _ _) in Hc.
  assert (sessions (store w2) !! id s0 = Some s2) as Hk2
    by (rewrite Hid; simpl; by rewrite lookup_insert_eq).
  assert (heap w2 !! length (heap w) = Some (∅ : gmap string any)) as Hvs
    by (simpl; by rewrite lookup_app_r, Nat.sub_diag).
  exists w1, s2, w2. split; [done|]. split; [done|]. split; [done|]. split.
  - intros k. eexists.
    rewrite (Session_Get_at s0 k w2 s2 _ ∅ Hu Hk2 eq_refl eq_refl Hvs).
    by rewrite lookup_empty.
  - intros k v. do 2 eexists.
    rewrite (Session_Set_at s0 k v w2 s2 _ Hu Hk2 eq_refl eq_refl).
    split; [done|]. simpl. rewrite Hid, lookup_insert_eq.
    split; [done|]. split; [done|]. unfold contents. simpl.
    rewrite list_lookup_alter_eq. simpl in Hvs. rewrite Hvs. simpl.
    by rewrite insert_empty.
Qed.

(** X10.  [Restore] never adds or removes a session: [array], the counter, the
    period, the value stores and the set of ids of the table are as they
    were.  It succeeds exactly when the id is valid and in the table; when
    it fails it returns the zero session and changes nothing at all. *)
Theorem Restore_frame (sid : UUID) (w : World) :
  bound_entries w →
  ∃ s e w1, Store_Restore Variant sid w = Some (s, e, w1)
    ∧ heap w1 = heap w ∧ clock w1 = clock w
    ∧ array (store w1) = array (store w)
    ∧ tally (store w1) = tally (store w)
    ∧ period (store w1) = period (store w)
    ∧ dom (sessions (store w1)) = dom (sessions (store w))
    ∧ (e = None ↔ Variant sid ≠ Invalid
                  ∧ is_Some (sessions (store w) !! sid))
    ∧ (e ≠ None → s = Session_zero ∧ w1 = w).
Proof.
  intros Hb. unfold Store_Restore. case_bool_decide as Hv.
  { do 3 eexists. split; [done|]. repeat (split; [done|]). split; [|done].
    split; [done|]. by intros [? _]. }
  fold (Store_touch sid w).
  destruct (sessions (store w) !! sid) as [se|] eqn:Hk.
  - rewrite (Store_touch_present _ _ _ Hk). simpl.
    destruct (Hb sid se Hk) as (_ & -> & _). simpl.
    do 3 eexists. split; [done|]. simpl. repeat (split; [done|]).
    split; [|split]; [| |done].
    + by apply dom_insert_lookup_L.
    + split; [|done]. intros _. split; [done|eauto].
  - rewrite (Store_touch_absent _ _ Hk). simpl.
    do 3 eexists. split; [done|]. repeat (split; [done|]). split; [|done].
    split; [done|]. intros [_ [? ?]]. done.
Qed.

(** X11.  A session that has timed out is gone after the sweep: [Restore] of its
    id and [Get], [Set] and [Del] through a copy of it fail and leave the
    state as the sweep left it, and the id can be created again. *)
Theorem expired_then_gone (sid : UUID) (secs : Z) (order : list UUID)
    (s : Session) (k : string) (v : any) (w : World) (se : Session) :
  Variant sid ≠ Invalid → table_invariant (store w) →
  sessions (store w) !! sid = Some se →
  clock w - modified se > maxage se → sid ∈ order →
  id s = sid → unbound s = false →
  ∃ w1, timer_fires order w = Some w1
    ∧ Store_Restore Variant sid w1
      = Some (Session_zero, Some (Errorf "Store.Restore" ErrNoSession), w1)
    ∧ Session_Get s k w1
      = Some (anyNil, Some (Errorf "Session.Get" ErrNoSession), w1)
    ∧ Session_Set s k v w1
      = Some (Some (Errorf "Session.Set" ErrTimedOut), w1)
    ∧ Session_Del s k w1
      = Some (Some (Errorf "Session.Del" ErrNoSession), w1)
    ∧ ∃ s' w2, Store_Create Variant sid secs w1 = Some (s', None, w2)
               ∧ sessions (store w2) !! sid = Some s'.
Proof.
  intros Hv Hok%table_invariant_ok Hk Hex Hin Hid Hu.
  destruct (sweep_drops order w sid se Hok Hk Hex Hin)
    as (s' & Hsw & _ & _ & Hgone).
  set (w1 := set_store s' w) in *.
  assert (sessions (store w1) !! sid = None) as Hk1 by done.
  exists w1. split; [done|].
  split; [by apply Store_Restore_absent|].
  unfold Session_Get, Session_Set, Session_Del. rewrite Hu, Hid.
  rewrite (Store_touch_absent _ _ Hk1). simpl.
  repeat (split; [done|]).
  rewrite (Store_Create_new Variant sid secs w1 Hv Hk1).
  do 2 eexists. split; [done|]. simpl. by rewrite lookup_insert_eq.
Qed.

End Methods2.

(** X12.  Every access to the data of a session postpones its expiry: after
    [Get], [Set] or [Del] through a bound copy of a session of the table, a
    sweep that comes no later than the TTL of the session afterwards keeps
    the session. *)
Theorem access_postpones_expiry (s : Session) (k : string) (v : any)
    (d : N) (order : list UUID) (w : World) (se : Session) :
  world_ok w → unbound s = false →
  sessions (store w) !! id s = Some se →
  Z.of_N d ≤ maxage se →
  (∃ r w1 w2, Session_Get s k w = Some (r, w1)
     ∧ timer_fires order (advance d w1) = Some w2
     ∧ is_Some (sessions (store w2) !! id s))
  ∧ (∃ w1 w2, Session_Set s k v w = Some (None, w1)
     ∧ timer_fires order (advance d w1) = Some w2
     ∧ is_Some (sessions (store w2) !! id s))
  ∧ (∃ w1 w2, Session_Del s k w = Some (None, w1)
     ∧ timer_fires order (advance d w1) = Some w2
     ∧ is_Some (sessions (store w2) !! id s)).
Proof.
  intros [Hok Hb]%world_ok_elim Hu Hk Hd.
  destruct (Hb _ _ Hk) as (_ & Hact & _ & l & Hl & Hlt).
  destruct (lookup_lt_is_Some_2 (heap w) l Hlt) as [vs Hvs].
  assert (∀ h, ∃ w2, timer_fires order
                       (advance d (set_heap h (touched (id s) se w)))
                     = Some w2
                     ∧ is_Some (sessions (store w2) !! id s)) as Hkeep.
  { intros h.
    destruct (sweep_keeps order
                (advance d (set_heap h (touched (id s) se w)))
                (id s) (set_modified (clock w) se))
      as (w2 & i & Hw2 & _ & Hi).
    - simpl. by apply (touched_table_ok (id s) se w Hok Hk).
    - simpl. by rewrite lookup_insert_eq.
    - simpl. lia.
    - exists w2. split; [done|]. by rewrite Hi. }
  split; [|split].
  - rewrite (Session_Get_at s k w se l vs Hu Hk Hact Hl Hvs).
    destruct (Hkeep (heap w)) as (w2 & Hw2 & Hin).
    do 3 eexists. split; [done|]. split; [|done].
    replace (touched (id s) se w)
      with (set_heap (heap w) (touched (id s) se w)) by done.
    exact Hw2.
  - rewrite (Session_Set_at s k v w se l Hu Hk Hact Hl).
    destruct (Hkeep (alter (λ vs, <[k := v]> vs) l (heap w)))
      as (w2 & Hw2 & Hin).
    do 2 eexists. split; [done|]. split; [exact Hw2|exact Hin].
  - rewrite (Session_Del_at s k w se l Hu Hk Hact Hl).
    destruct (Hkeep (alter (λ vs, delete k vs) l (heap w)))
      as (w2 & Hw2 & Hin).
    do 2 eexists. split; [done|]. split; [exact Hw2|exact Hin].
Qed.

(** X13.  The outcome of a sweep does not depend on the order in which Go ranges
    over the map: on a table that satisfies the invariant, two sweeps that
    each visit every key return the same state. *)
Theorem sweep_order_irrelevant (o1 o2 : list UUID) (w : World) :
  table_invariant (store w) →
  (∀ k, is_Some (sessions (store w) !! k) → k ∈ o1) →
  (∀ k, is_Some (sessions (store w) !! k) → k ∈ o2) →
  ∃ w', timer_fires o1 w = Some w' ∧ timer_fires o2 w = Some w'.
Proof.
  intros Hok%table_invariant_ok Ho1 Ho2. unfold timer_fires, serve. simpl.
  destruct (command_timeout_spec o1 w Hok)
    as (s1 & -> & Hok1 & Hper1 & Harr1 & Hses1).
  destruct (command_timeout_spec o2 w Hok)
    as (s2 & -> & Hok2 & Hper2 & Harr2 & Hses2).
  simpl. exists (set_store s1 w). split; [done|]. do 2 f_equal.
  assert (array s2 = array s1) as Harr.
  { rewrite Harr1, Harr2. apply filter_ext_in. intros k Hk.
    apply (ok_dom _ Hok) in Hk. specialize (Ho1 k Hk).
    specialize (Ho2 k Hk). tauto. }
  apply Store_eq; [|done| |congruence].
  - apply map_eq. intros k. specialize (Hses1 k). specialize (Hses2 k).
    destruct (sessions (store w) !! k) as [se|] eqn:Hk; [|congruence].
    assert (k ∈ o1) as Hin1 by (apply Ho1; eauto).
    assert (k ∈ o2) as Hin2 by (apply Ho2; eauto).
    destruct (expired (clock w) se) eqn:Hex.
    + rewrite decide_True in Hses1 by done.
      rewrite decide_True in Hses2 by done. congruence.
    + rewrite decide_False in Hses1 by (by intros [_ ?]).
      rewrite decide_False in Hses2 by (by intros [_ ?]).
      destruct Hses1 as [i1 Hi1], Hses2 as [i2 Hi2].
      destruct (ok_index _ Hok1 k _ Hi1) as [H01 Hp1].
      destruct (ok_index _ Hok2 k _ Hi2) as [H02 Hp2].
      simpl in *. rewrite Harr in Hp2.
      pose proof (NoDup_lookup _ _ _ _ (ok_nodup _ Hok1) Hp1 Hp2).
      rewrite Hi1, Hi2. do 2 f_equal. lia.
  - rewrite (ok_tally _ Hok1), (ok_tally _ Hok2). by rewrite Harr.
Qed.

(** X14.  A session that nobody touches while the timer sleeps does not outlive
    the sweep that follows, if its TTL is shorter than the period: one
    round of the timer removes it, however late the timer wakes up. *)
Theorem untouched_session_swept (late : N) (order : list UUID) (w : World)
    (k : UUID) (se : Session) :
  table_invariant (store w) → sessions (store w) !! k = Some se →
  modified se ≤ clock w → maxage se < period (store w) → k ∈ order →
  ∃ w1, timer_round late order w = Some w1
        ∧ sessions (store w1) !! k = None
        ∧ table_invariant (store w1).
Proof.
  intros Hok%table_invariant_ok Hk Hmod Hage Hin. unfold timer_round.
  destruct (sweep_drops order
              (advance (Z.to_N (period (store w)) + late) w) k se)
    as (s' & Hsw & Hok' & _ & Hgone); [done|done| |done|].
  - simpl. lia.
  - eexists. split; [done|]. split; [done|]. by apply table_ok_invariant.
Qed.

(** X15.  [Period] returns the former period and sets the new one, leaving
    the rest of the state as it was; setting the returned period again
    undoes it.  The sessions that exist keep their TTL.  A session created
    afterwards gets the new period divided by two whenever the duration
    [Create] asks for, the int64 product of the seconds and [time.Second],
    is not positive, and that duration otherwise; the product is not
    positive for every number of seconds from -9223372036 to 0. *)
Theorem Period_swaps (t : Duration) (w : World) :
  (Store_Period t w).1 = period (store w)
  ∧ period (store (Store_Period t w).2) = t
  ∧ Store_Period (Store_Period t w).1 (Store_Period t w).2 = (t, w)
  ∧ sessions (store (Store_Period t w).2) = sessions (store w)
  ∧ array (store (Store_Period t w).2) = array (store w)
  ∧ tally (store (Store_Period t w).2) = tally (store w)
  ∧ heap (Store_Period t w).2 = heap w
  ∧ clock (Store_Period t w).2 = clock w
  ∧ (∀ Variant sid secs s w2,
       Store_Create Variant sid secs (Store_Period t w).2
       = Some (s, None, w2) →
       maxage s = if bool_decide (0 < wrap64 (secs * Second))
                  then wrap64 (secs * Second) else t `quot` 2)
  ∧ (∀ Variant sid secs s w2,
       -9223372036 ≤ secs ≤ 0 →
       Store_Create Variant sid secs (Store_Period t w).2
       = Some (s, None, w2) →
       maxage s = t `quot` 2).
Proof.
  repeat (split; [done|]). split; [by destruct w as [[m a tl p] h c]|].
  repeat (split; [done|]).
  assert (∀ Variant sid secs s w2,
            Store_Create Variant sid secs (Store_Period t w).2
            = Some (s, None, w2) →
            maxage s = if bool_decide (0 < wrap64 (secs * Second))
                       then wrap64 (secs * Second) else t `quot` 2) as Hgen.
  { intros Variant sid secs s w2. unfold Store_Create.
    case_bool_decide; [done|]. unfold call, serve, command_create. simpl.
    destruct (sessions (store w) !! sid); simpl; [done|].
    intros [= <- _]. simpl. unfold divisor.
    repeat case_bool_decide; done || lia. }
  split; [exact Hgen|].
  intros Variant sid secs s w2 Hsecs Hc.
  rewrite (Hgen Variant sid secs s w2 Hc). rewrite bool_decide_false; [done|].
  unfold wrap64, Second. rewrite Z.mod_small; lia.
Qed.

(** X16.  The options of the manager: [Options] applies its options in order,
    and what it returns undoes the last of them.  With a manager on the
    store and options that are not nil, [Options] returns; after a list of
    options that ends with [Period(t)] the period is [t] and nothing else
    has changed in the state; applying the returned option gives back the
    state the options before the last one had produced, and returns the
    option that sets [t] again. *)
Theorem Options_undo (m : manager) (opts : list OptMgrFunc)
    (o : OptMgrFunc) (t : Duration) (w : World) :
  Manager m = ptrStore → Forall (λ opt, opt ≠ nilOpt) opts →
  ∃ p wmid undo w1,
    manager_Options m opts w = Some (p, wmid)
    ∧ manager_Options m (opts ++ [OptMgrFunc_Period o t]) w
      = Some (undo, w1)
    ∧ period (store w1) = t
    ∧ sessions (store w1) = sessions (store w)
    ∧ array (store w1) = array (store w)
    ∧ tally (store w1) = tally (store w)
    ∧ heap w1 = heap w ∧ clock w1 = clock w
    ∧ manager_Options m [undo] w1 = Some (OptMgrFunc_Period o t, wmid).
Proof.
  intros Hm Hopts. unfold manager_Options.
  assert (∀ prev w0, ∃ p w', Options_loop m opts prev w0 = Some (p, w')
            ∧ sessions (store w') = sessions (store w0)
            ∧ array (store w') = array (store w0)
            ∧ tally (store w') = tally (store w0)
            ∧ heap w' = heap w0 ∧ clock w' = clock w0) as Hloop.
  { induction Hopts as [|opt opts Hopt Hopts IH]; intros prev w0.
    - by exists prev, w0.
    - destruct opt as [|o' t']; [done|].
      destruct (IH (OptMgrFunc_Period o' (period (store w0)))
                   (Store_Period t' w0).2) as (p & w' & Heq & H).
      exists p, w'. simpl. unfold manager_Period. rewrite Hm. simpl.
      simpl in Heq, H. by rewrite Heq. }
  destruct (Hloop nilOpt w) as (p & wmid & Hmid & Hs & Ha & Ht & Hh & Hc).
  exists p, wmid. do 2 eexists. split; [done|].
  rewrite Options_loop_snoc, Hmid. simpl.
  unfold manager_Period. rewrite Hm. simpl. split; [done|]. simpl.
  repeat (split; [done|]). unfold manager_Period. rewrite Hm. simpl.
  do 2 f_equal. by destruct wmid as [[ms a tl pd] h c].
Qed.

(** X17.  Where [Options] stops: without options it returns nil and leaves the
    state alone; a nil option in the list, or any option at all on a
    manager that [NewManager] made for a memory type other than [RAM],
    makes it panic. *)
Theorem Options_panics (m : manager) (opts : list OptMgrFunc) (w : World) :
  manager_Options m [] w = Some (nilOpt, w)
  ∧ (nilOpt ∈ opts → manager_Options m opts w = None)
  ∧ (∀ mem t0, mem ≠ RAM → opts ≠ [] →
            manager_Options (NewManager mem t0).1 opts w = None).
Proof.
  unfold manager_Options. split; [done|]. split.
  - generalize nilOpt at 2. revert w.
    induction opts as [|opt opts IH]; intros w prev Hin.
    + by apply elem_of_nil in Hin.
    + simpl. destruct opt as [|o t]; [done|].
      apply elem_of_cons in Hin as [?|Hin]; [done|].
      simpl. destruct (manager_Period m t w) as [[p w']|]; simpl; [|done].
      by apply IH.
  - intros mem t0 Hmem Hne. destruct opts as [|opt opts]; [done|]. simpl.
    destruct opt as [|o t]; [done|]. simpl. unfold manager_Period, NewManager.
    by rewrite bool_decide_false.
Qed.

(** ** Time stamps *)

Lemma timely_kept (w w' : World) :
  entries_kept (store w) (store w') → clock w ≤ clock w' →
  timely w → timely w'.
Proof.
  intros Hkept Hc Ht k se' Hk'.
  destruct (Hkept k se' Hk') as (se & i & Hk & ->).
  destruct (Ht k se Hk). simpl. lia.
Qed.

Lemma entries_kept_refl (s : Store) : entries_kept s s.
Proof.
  intros k se Hk. exists se, (index se). by rewrite set_index_same.
Qed.

Lemma command_create_timely (c : command) (w : World) :
  timely w → timely (command_create c w).2.
Proof.
  intros Ht. unfold command_create.
  destruct (sessions (store w) !! key c) as [se0|] eqn:Hk; [done|].
  intros k se Hse. simpl in Hse. simpl.
  destruct (decide (k = key c)) as [->|Hne].
  - rewrite lookup_insert_eq in Hse. injection Hse as <-. simpl. lia.
  - rewrite lookup_insert_ne in Hse by done. exact (Ht _ _ Hse).
Qed.

Lemma command_touch_timely (c : command) (w : World) :
  timely w → timely (command_touch c w).2.
Proof.
  intros Ht. unfold command_touch.
  destruct (sessions (store w) !! key c) as [se0|] eqn:Hk; [|done].
  intros k se Hse. simpl in Hse. simpl.
  destruct (decide (k = key c)) as [->|Hne].
  - rewrite lookup_insert_eq in Hse. injection Hse as <-. simpl.
    destruct (Ht _ _ Hk). lia.
  - rewrite lookup_insert_ne in Hse by done. exact (Ht _ _ Hse).
Qed.

Lemma Store_touch_timely (sid : UUID) (w w' : World) (r : Session) :
  timely w → Store_touch sid w = Some (r, w') → timely w'.
Proof.
  intros Ht. unfold Store_touch, call, serve. simpl.
  pose proof (command_touch_timely
                {| ccmd := touch; key := sid; cmaxage := 0 |} w Ht) as Ht'.
  destruct (command_touch _ w) as [r' w'']. by intros [= _ <-].
Qed.

Lemma perform_timely (Variant : UUID → variant) (o : operation)
    (w w' : World) :
  sound w → timely w → perform Variant o w = Some w' → timely w'.
Proof.
  intros Hs Ht. destruct o as [d|order|sid secs|sid|sid|t|s k v|s k|s k]; simpl.
  - intros [= <-]. intros k se Hk. destruct (Ht k se Hk). simpl. lia.
  - unfold timer_fires, serve. simpl.
    destruct (command_timeout_spec order w (proj1 Hs)) as (s' & -> & Hs').
    simpl. intros [= <-]. eapply (timely_kept w); [|done|done].
    by eapply swept_entries_kept.
  - unfold Store_Create. case_bool_decide; [by intros [= <-]|].
    unfold call, serve. simpl.
    pose proof (command_create_timely
                  {| ccmd := create; key := sid;
                     cmaxage := wrap64 (secs * Second) |} w Ht) as Ht'.
    destruct (command_create _ w) as [r w1]. simpl in *.
    destruct (active r); by intros [= <-].
  - unfold Store_Restore. case_bool_decide; [by intros [= <-]|].
    fold (Store_touch sid w).
    destruct (Store_touch sid w) as [[r w1]|] eqn:Htouch; simpl; [|done].
    apply (Store_touch_timely _ _ _ _ Ht) in Htouch.
    destruct (active r); by intros [= <-].
  - unfold Store_Destroy. case_bool_decide; [by intros [= <-]|].
    unfold call, serve. simpl.
    destruct (command_destroy_spec
                {| ccmd := deactivate; key := sid; cmaxage := 0 |} w
                (proj1 Hs)) as (s' & -> & _ & Hkept & _).
    simpl. intros [= <-]. by eapply (timely_kept w).
  - intros [= <-]. intros k se Hk. exact (Ht _ _ Hk).
  - unfold Session_Set. destruct (unbound s); [by intros [= <-]|].
    destruct (Store_touch (id s) w) as [[r w1]|] eqn:Htouch; simpl; [|done].
    apply (Store_touch_timely _ _ _ _ Ht) in Htouch.
    destruct (active r); simpl; [|by intros [= <-]].
    destruct (valueStore_assign _ _ _ _); simpl; [|done].
    intros [= <-]. intros k' se Hk. exact (Htouch _ _ Hk).
  - unfold Session_Get. destruct (unbound s); [by intros [= <-]|].
    destruct (Store_touch (id s) w) as [[r w1]|] eqn:Htouch; simpl; [|done].
    apply (Store_touch_timely _ _ _ _ Ht) in Htouch.
    destruct (active r); simpl; [|by intros [= <-]].
    destruct (valueStore_get _ _ _); by intros [= <-].
  - unfold Session_Del. destruct (unbound s); [by intros [= <-]|].
    destruct (Store_touch (id s) w) as [[r w1]|] eqn:Htouch; simpl; [|done].
    apply (Store_touch_timely _ _ _ _ Ht) in Htouch.
    destruct (active r); simpl; [|by intros [= <-]].
    intros [= <-]. intros k' se Hk. exact (Htouch _ _ Hk).
Qed.

Lemma perform_all_timely (Variant : UUID → variant) (os : list operation)
    (w : World) :
  sound w → timely w →
  ∃ w', perform_all Variant os w = Some w' ∧ timely w'.
Proof.
  revert w. induction os as [|o os IH]; intros w Hs Ht; simpl.
  - by exists w.
  - destruct (perform_sound Variant o w Hs) as (w1 & Hw1 & Hs1).
    rewrite Hw1. simpl. apply IH; [done|].
    exact (perform_timely Variant o w w1 Hs Ht Hw1).
Qed.

(** X18.  Whatever the users of the package do, the time stamps of every stored
    session stay in order: it was created no later than it was last
    modified, and last modified no later than now. *)
Theorem timestamps_ordered (Variant : UUID → variant) (os : list operation)
    (t0 : Time) :
  ∃ w, perform_all Variant os (Init t0) = Some w
       ∧ ∀ k se, sessions (store w) !! k = Some se →
           created se ≤ modified se ∧ modified se ≤ clock w.
Proof.
  apply perform_all_timely; [apply sound_Init|].
  intros k se Hk. simpl in Hk. by rewrite lookup_empty in Hk.
Qed.

(** ** Tables that agree up to the index are equal *)

Lemma table_ok_canonical (s1 s2 : Store) :
  table_ok s1 → table_ok s2 →
  array s1 = array s2 → period s1 = period s2 →
  (∀ k, match sessions s1 !! k, sessions s2 !! k with
        | Some e1, Some e2 => set_index 0 e1 = set_index 0 e2
        | None, None => True
        | _, _ => False
        end) →
  s1 = s2.
Proof.
  intros Hok1 Hok2 Harr Hper Hrel. apply Store_eq; [|done| |done].
  - apply map_eq. intros k. specialize (Hrel k).
    destruct (sessions s1 !! k) as [e1|] eqn:H1;
      destruct (sessions s2 !! k) as [e2|] eqn:H2; try done.
    destruct (ok_index _ Hok1 k e1 H1) as [H01 Hp1].
    destruct (ok_index _ Hok2 k e2 H2) as [H02 Hp2].
    rewrite Harr in Hp1.
    pose proof (NoDup_lookup _ _ _ _ (ok_nodup _ Hok2) Hp1 Hp2) as Hi.
    assert (index e1 = index e2) as Hidx by lia.
    f_equal. destruct e1, e2. simpl in *. injection Hrel as -> -> -> -> -> -> ->.
    by rewrite Hidx.
  - rewrite (ok_tally _ Hok1), (ok_tally _ Hok2). by rewrite Harr.
Qed.

Lemma renumber_up_to_index (se e : Session) :
  set_index 0 (renumber se e) = set_index 0 e.
Proof. unfold renumber. by case_bool_decide. Qed.

(** What [Store.Destroy] makes of a sound table, whether the id is there
    or not. *)
Lemma Store_Destroy_any (Variant : UUID → variant) (sid : UUID) (w : World) :
  Variant sid ≠ Invalid → table_ok (store w) →
  ∃ s', Store_Destroy Variant sid w = Some (None, set_store s' w)
        ∧ table_ok s' ∧ period s' = period (store w)
        ∧ array s' = filter (λ k', k' ≠ sid) (array (store w))
        ∧ sessions s' !! sid = None
        ∧ ∀ k', k' ≠ sid →
            match sessions (store w) !! k', sessions s' !! k' with
            | Some e1, Some e2 => set_index 0 e1 = set_index 0 e2
            | None, None => True
            | _, _ => False
            end.
Proof.
  intros Hv Hok. destruct (sessions (store w) !! sid) as [se|] eqn:Hk.
  - destruct (Store_Destroy_present Variant sid w se Hv Hok Hk)
      as (s' & Hd & Hok' & Hper & _ & Harr & Hgone & Hrest).
    exists s'. repeat (split; [done|]). intros k' Hne.
    rewrite (Hrest k' Hne). destruct (sessions (store w) !! k'); simpl; [|done].
    by rewrite renumber_up_to_index.
  - exists (store w). split.
    { unfold Store_Destroy. rewrite bool_decide_false by done.
      unfold call, serve, command_destroy. simpl. rewrite Hk. simpl.
      by destruct w. }
    repeat (split; [done|]). split; [|split; [done|]].
    + symmetry. apply filter_all. intros x Hx ->.
      apply (ok_dom _ Hok) in Hx as [? ?]. congruence.
    + intros k' _. by destruct (sessions (store w) !! k').
Qed.

Section Methods3.

Variable Variant : UUID → variant.

(** X19.  Two [Destroy] commute: destroying two ids in one order or the other
    gives the same state. *)
Theorem Destroy_commute (a b : UUID) (w : World) :
  Variant a ≠ Invalid → Variant b ≠ Invalid →
  table_invariant (store w) →
  ∃ wa wb w2,
    Store_Destroy Variant a w = Some (None, wa)
    ∧ Store_Destroy Variant b wa = Some (None, w2)
    ∧ Store_Destroy Variant b w = Some (None, wb)
    ∧ Store_Destroy Variant a wb = Some (None, w2).
Proof.
  intros Ha Hb Hok%table_invariant_ok.
  destruct (Store_Destroy_any Variant a w Ha Hok)
    as (sa & Hda & Hoka & Hpa & Harra & Hga & Hra).
  destruct (Store_Destroy_any Variant b (set_store sa w) Hb Hoka)
    as (sab & Hdab & Hokab & Hpab & Harrab & Hgab & Hrab).
  destruct (Store_Destroy_any Variant b w Hb Hok)
    as (sb & Hdb & Hokb & Hpb & Harrb & Hgb & Hrb).
  destruct (Store_Destroy_any Variant a (set_store sb w) Ha Hokb)
    as (sba & Hdba & Hokba & Hpba & Harrba & Hgba & Hrba).
  simpl in *.
  exists (set_store sa w), (set_store sb w), (set_store sab w).
  split; [done|]. split; [done|]. split; [done|].
  rewrite Hdba. do 2 f_equal. unfold set_store. simpl. f_equal.
  apply table_ok_canonical; [done|done| |congruence|].
  - rewrite Harrba, Harrb, Harrab, Harra, !list_filter_filter.
    apply list_filter_iff. tauto.
  - intros k. destruct (decide (k = a)) as [->|Hna].
    { rewrite Hgba. destruct (decide (a = b)) as [->|Hnab].
      - by rewrite Hgab.
      - specialize (Hrab a Hnab). rewrite Hga in Hrab.
        by destruct (sessions sab !! a). }
    destruct (decide (k = b)) as [->|Hnb].
    { rewrite Hgab. specialize (Hrba b Hna). rewrite Hgb in Hrba.
      by destruct (sessions sba !! b). }
    specialize (Hra k Hna). specialize (Hrab k Hnb).
    specialize (Hrb k Hnb). specialize (Hrba k Hna).
    destruct (sessions (store w) !! k), (sessions sa !! k),
      (sessions sb !! k), (sessions sab !! k), (sessions sba !! k);
      try done; congruence.
Qed.

End Methods3.

(** X20.  A second sweep at the same instant finds nothing to remove: it returns
    the state the first one left. *)
Theorem sweep_twice (o1 o2 : list UUID) (w : World) :
  table_invariant (store w) →
  (∀ k, is_Some (sessions (store w) !! k) → k ∈ o1) →
  ∃ w1, timer_fires o1 w = Some w1 ∧ timer_fires o2 w1 = Some w1.
Proof.
  intros Hok%table_invariant_ok Ho1. unfold timer_fires, serve. simpl.
  destruct (command_timeout_spec o1 w Hok)
    as (s1 & -> & Hok1 & Hper1 & Harr1 & Hses1).
  simpl. exists (set_store s1 w). split; [done|].
  destruct (command_timeout_spec o2 (set_store s1 w) Hok1)
    as (s2 & -> & Hok2 & Hper2 & Harr2 & Hses2).
  simpl in *. f_equal. unfold set_store. simpl. f_equal.
  assert (∀ k e, sessions s1 !! k = Some e → expired (clock w) e = false)
    as Hfresh.
  { intros k e He. specialize (Hses1 k).
    destruct (sessions (store w) !! k) as [e0|] eqn:Hk0; [|congruence].
    assert (k ∈ o1) as Hin by (apply Ho1; eauto).
    destruct (expired (clock w) e0) eqn:Hex.
    - rewrite decide_True in Hses1 by done. congruence.
    - rewrite decide_False in Hses1 by (by intros [_ ?]).
      destruct Hses1 as [i Hi]. rewrite Hi in He. by injection He as <-. }
  apply table_ok_canonical; [done|done| |done|].
  - rewrite Harr2. apply filter_all. intros k Hk [_ Hdue].
    apply (ok_dom _ Hok1) in Hk as [e He]. unfold due in Hdue.
    rewrite He in Hdue. simpl in Hdue. by rewrite (Hfresh k e He) in Hdue.
  - intros k. specialize (Hses2 k).
    destruct (sessions s1 !! k) as [e|] eqn:He.
    + rewrite (Hfresh k e He) in Hses2.
      rewrite decide_False in Hses2 by (by intros [_ ?]).
      destruct Hses2 as [i ->]. done.
    + by rewrite Hses2.
Qed.

(** ** The further properties on the example states *)

Lemma example_world_sound : sound example_world.
Proof.
  destruct (run_sound example_events (Init 0) example_served (sound_Init 0))
    as (w & Hw & Hs).
  unfold example_world. by rewrite Hw.
Qed.

Lemma example_valid (sid : UUID) : sid ≠ 0%N → example_Variant sid ≠ Invalid.
Proof.
  intros _. unfold example_Variant. cbv zeta.
  repeat case_bool_decide; discriminate.
Qed.

Lemma example_lookup1 :
  sessions (store example_world) !! 1%N = Some example_session1.
Proof. by vm_compute. Qed.

Lemma example_lookup2 :
  sessions (store example_world) !! 2%N = Some example_session2.
Proof. by vm_compute. Qed.

Lemma example_lookup3 : sessions (store example_world) !! 3%N = None.
Proof. by vm_compute. Qed.

Lemma Destroy_shifts_witness :
  example_Variant 1%N ≠ Invalid
  ∧ table_invariant (store example_world)
  ∧ sessions (store example_world) !! 1%N = Some example_session1
  ∧ ∃ w1, Store_Destroy example_Variant 1%N example_world = Some (None, w1)
          ∧ array (store w1) = [2%N]
          ∧ sessions (store w1) !! 2%N = Some (set_index 0 example_session2).
Proof.
  assert (example_Variant 1%N ≠ Invalid) as Hv by (by apply example_valid).
  split; [exact Hv|]. split; [exact (proj1 example_world_ok)|].
  split; [exact example_lookup1|].
  destruct (Destroy_shifts example_Variant 1%N example_world
              example_session1 Hv (proj1 example_world_ok) example_lookup1)
    as (w1 & Hd & _ & _ & _ & _ & Harr & _ & _ & Hrest & _).
  exists w1. split; [exact Hd|]. split; [by rewrite Harr|].
  by rewrite (Hrest 2%N example_session2 ltac:(done) example_lookup2).
Defined.

Lemma Create_appends_witness :
  example_Variant 3%N ≠ Invalid
  ∧ bound_entries example_world
  ∧ sessions (store example_world) !! 3%N = None
  ∧ ∃ s w1, Store_Create example_Variant 3%N 60 example_world
            = Some (s, None, w1)
            ∧ index s = 2
            ∧ array (store w1) = [1%N; 2%N; 3%N]
            ∧ contents w1 s = Some ∅.
Proof.
  assert (example_Variant 3%N ≠ Invalid) as Hv by (by apply example_valid).
  split; [exact Hv|]. split; [exact (proj2 example_world_ok)|].
  split; [exact example_lookup3|].
  destruct (Create_appends example_Variant 3%N 60 example_world Hv
              (proj2 example_world_ok) example_lookup3)
    as (s & w1 & Hc & _ & _ & _ & _ & _ & Hi & _ & Harr & _ & Hcont & _).
  exists s, w1. split; [exact Hc|]. split; [by rewrite Hi|].
  split; [by rewrite Harr|exact Hcont].
Defined.

Lemma Create_Destroy_witness :
  example_Variant 3%N ≠ Invalid
  ∧ table_invariant (store example_world)
  ∧ sessions (store example_world) !! 3%N = None
  ∧ ∃ s w1 w2, Store_Create example_Variant 3%N 60 example_world
               = Some (s, None, w1)
               ∧ Store_Destroy example_Variant 3%N w1 = Some (None, w2)
               ∧ store w2 = store example_world
               ∧ heap w2 = heap example_world ++ [∅]
               ∧ clock w2 = clock example_world.
Proof.
  assert (example_Variant 3%N ≠ Invalid) as Hv by (by apply example_valid).
  split; [exact Hv|]. split; [exact (proj1 example_world_ok)|].
  split; [exact example_lookup3|].
  exact (Create_Destroy example_Variant 3%N 60 example_world Hv
           (proj1 example_world_ok) example_lookup3).
Defined.

Lemma Set_then_Get_witness :
  world_ok example_world
  ∧ unbound example_session2 = false
  ∧ is_Some (sessions (store example_world) !! id example_session2)
  ∧ ∃ w1 w2, Session_Set example_session2 "x" (anyInt 1) example_world
             = Some (None, w1)
             ∧ Session_Get example_session2 "x" (advance 5 w1)
               = Some (anyInt 1, None, w2).
Proof.
  assert (is_Some (sessions (store example_world) !! id example_session2))
    as Hk by (exists example_session2; exact example_lookup2).
  split; [exact example_world_ok|]. split; [reflexivity|]. split; [exact Hk|].
  destruct (Set_then_Get example_session2 example_session2 "x" (anyInt 1) 5
              example_world example_world_ok eq_refl eq_refl eq_refl Hk)
    as (w1 & w2 & Hset & Hget & _).
  exists w1, w2. split; [exact Hset|exact Hget].
Defined.

Lemma Del_then_Get_witness :
  world_ok example_world
  ∧ unbound example_session2 = false
  ∧ is_Some (sessions (store example_world) !! id example_session2)
  ∧ ∃ w1 w2, Session_Del example_session2 "x" example_world = Some (None, w1)
             ∧ Session_Get example_session2 "x" (advance 5 w1)
               = Some (anyNil, Some (Errorf "Session.Get" ErrNoData), w2).
Proof.
  assert (is_Some (sessions (store example_world) !! id example_session2))
    as Hk by (exists example_session2; exact example_lookup2).
  split; [exact example_world_ok|]. split; [reflexivity|]. split; [exact Hk|].
  destruct (Del_then_Get example_session2 example_session2 "x" 5
              example_world example_world_ok eq_refl eq_refl eq_refl Hk)
    as (w1 & w2 & Hdel & Hget & _).
  exists w1, w2. split; [exact Hdel|exact Hget].
Defined.

Lemma Set_Del_isolated_witness :
  world_ok example_world ∧ stores_apart example_world
  ∧ unbound example_session2 = false
  ∧ is_Some (sessions (store example_world) !! id example_session2)
  ∧ 1%N ≠ id example_session2
  ∧ sessions (store example_world) !! 1%N = Some example_session1
  ∧ ∃ w1, Session_Set example_session2 "x" (anyInt 1) example_world
          = Some (None, w1)
          ∧ sessions (store w1) !! 1%N = Some example_session1
          ∧ contents w1 example_session1
            = contents example_world example_session1.
Proof.
  assert (is_Some (sessions (store example_world) !! id example_session2))
    as Hk by (exists example_session2; exact example_lookup2).
  assert (1%N ≠ id example_session2) as Hne by done.
  split; [exact example_world_ok|].
  split; [exact (proj2 (proj2 example_world_sound))|].
  split; [reflexivity|]. split; [exact Hk|]. split; [exact Hne|].
  split; [exact example_lookup1|].
  destruct (Set_Del_isolated example_session2 "x" (anyInt 1) example_world
              1%N example_session1 example_world_ok
              (proj2 (proj2 example_world_sound)) eq_refl Hk Hne
              example_lookup1)
    as (w1 & _ & Hset & Hk1 & Hc1 & _).
  exists w1. split; [exact Hset|]. split; [exact Hk1|exact Hc1].
Defined.

Lemma Get_reads_witness :
  ∃ r w1, Session_Get example_session2 "x" example_world = Some (r, w1)
          ∧ heap w1 = heap example_world
          ∧ dom (sessions (store w1)) = dom (sessions (store example_world)).
Proof.
  assert (∃ r w1, Session_Get example_session2 "x" example_world
                  = Some (r, w1)) as (r & w1 & Hg)
    by (vm_compute; eauto).
  exists r, w1. split; [exact Hg|].
  destruct (Get_reads example_session2 "x" example_world w1 r Hg)
    as (Hh & _ & _ & _ & _ & Hdom & _).
  split; [exact Hh|exact Hdom].
Defined.

Lemma Destroy_Create_fresh_witness :
  example_Variant 2%N ≠ Invalid ∧ world_ok example_world
  ∧ is_Some (sessions (store example_world) !! 2%N)
  ∧ id example_session2 = 2%N ∧ unbound example_session2 = false
  ∧ ∃ w1 s2 w2,
      Store_Destroy example_Variant 2%N example_world = Some (None, w1)
      ∧ Store_Create example_Variant 2%N 60 w1 = Some (s2, None, w2)
      ∧ contents w2 s2 = Some ∅
      ∧ ∃ w3, Session_Get example_session2 "x" w2
              = Some (anyNil, Some (Errorf "Session.Get" ErrNoData), w3).
Proof.
  assert (example_Variant 2%N ≠ Invalid) as Hv by (by apply example_valid).
  assert (is_Some (sessions (store example_world) !! 2%N)) as Hk
    by (exists example_session2; exact example_lookup2).
  split; [exact Hv|]. split; [exact example_world_ok|]. split; [exact Hk|].
  split; [reflexivity|]. split; [reflexivity|].
  destruct (Destroy_Create_fresh example_Variant 2%N 60 example_session2
              example_world Hv example_world_ok Hk eq_refl eq_refl)
    as (w1 & s2 & w2 & Hd & Hc & Hcont & Hget & _).
  exists w1, s2, w2. split; [exact Hd|]. split; [exact Hc|].
  split; [exact Hcont|exact (Hget "x")].
Defined.

Lemma Restore_frame_witness :
  bound_entries example_world
  ∧ ∃ s e w1, Store_Restore example_Variant 3%N example_world
              = Some (s, e, w1)
              ∧ e ≠ None ∧ s = Session_zero ∧ w1 = example_world.
Proof.
  split; [exact (proj2 example_world_ok)|].
  destruct (Restore_frame example_Variant 3%N example_world
              (proj2 example_world_ok))
    as (s & e & w1 & Hr & _ & _ & _ & _ & _ & _ & Hiff & Hfail).
  assert (e ≠ None) as He.
  { intros Hnone. apply Hiff in Hnone as [_ [x Hx]].
    rewrite example_lookup3 in Hx. discriminate. }
  exists s, e, w1. split; [exact Hr|]. split; [exact He|exact (Hfail He)].
Defined.

Lemma expired_then_gone_witness :
  example_Variant 1%N ≠ Invalid
  ∧ table_invariant (store example_world)
  ∧ sessions (store example_world) !! 1%N = Some example_session1
  ∧ clock example_world - modified example_session1
    > maxage example_session1
  ∧ 1%N ∈ [1%N; 2%N]
  ∧ ∃ w1, timer_fires [1%N; 2%N] example_world = Some w1
          ∧ Session_Get example_session1 "x" w1
            = Some (anyNil, Some (Errorf "Session.Get" ErrNoSession), w1)
          ∧ ∃ s' w2, Store_Create example_Variant 1%N 60 w1
                     = Some (s', None, w2).
Proof.
  assert (example_Variant 1%N ≠ Invalid) as Hv by (by apply example_valid).
  assert (clock example_world - modified example_session1
          > maxage example_session1) as Hex by (vm_compute; reflexivity).
  assert (1%N ∈ [1%N; 2%N]) as Hin by (by left).
  split; [exact Hv|]. split; [exact (proj1 example_world_ok)|].
  split; [exact example_lookup1|]. split; [exact Hex|]. split; [exact Hin|].
  destruct (expired_then_gone example_Variant 1%N 60 [1%N; 2%N]
              example_session1 "x" anyNil example_world example_session1
              Hv (proj1 example_world_ok) example_lookup1 Hex Hin
              eq_refl eq_refl)
    as (w1 & Hsw & _ & Hget & _ & _ & s' & w2 & Hc & _).
  exists w1. split; [exact Hsw|]. split; [exact Hget|].
  exists s', w2. exact Hc.
Defined.

Lemma access_postpones_expiry_witness :
  world_ok example_world ∧ unbound example_session1 = false
  ∧ sessions (store example_world) !! id example_session1
    = Some example_session1
  ∧ Z.of_N 5000000000 ≤ maxage example_session1
  ∧ ∃ r w1 w2, Session_Get example_session1 "x" example_world = Some (r, w1)
      ∧ timer_fires [1%N; 2%N] (advance 5000000000 w1) = Some w2
      ∧ is_Some (sessions (store w2) !! id example_session1).
Proof.
  assert (Z.of_N 5000000000 ≤ maxage example_session1) as Hd
    by (vm_compute; discriminate).
  split; [exact example_world_ok|]. split; [reflexivity|].
  split; [exact example_lookup1|]. split; [exact Hd|].
  exact (proj1 (access_postpones_expiry example_session1 "x" anyNil
                  5000000000 [1%N; 2%N] example_world example_session1
                  example_world_ok eq_refl example_lookup1 Hd)).
Defined.

Lemma sweep_order_irrelevant_witness :
  table_invariant (store example_world)
  ∧ (∀ k, is_Some (sessions (store example_world) !! k) → k ∈ [1%N; 2%N])
  ∧ (∀ k, is_Some (sessions (store example_world) !! k) → k ∈ [2%N; 1%N])
  ∧ ∃ w', timer_fires [1%N; 2%N] example_world = Some w'
          ∧ timer_fires [2%N; 1%N] example_world = Some w'.
Proof.
  assert (∀ k, is_Some (sessions (store example_world) !! k)
               → k ∈ [2%N; 1%N]) as Hrev.
  { intros k Hk. apply example_keys in Hk.
    apply elem_of_cons in Hk as [->|Hk]; [by right; left|].
    apply list_elem_of_singleton in Hk as ->. by left. }
  split; [exact (proj1 example_world_ok)|]. split; [exact example_keys|].
  split; [exact Hrev|].
  exact (sweep_order_irrelevant [1%N; 2%N] [2%N; 1%N] example_world
           (proj1 example_world_ok) example_keys Hrev).
Defined.

Lemma untouched_session_swept_witness :
  table_invariant (store example_world)
  ∧ sessions (store example_world) !! 1%N = Some example_session1
  ∧ modified example_session1 ≤ clock example_world
  ∧ maxage example_session1 < period (store example_world)
  ∧ 1%N ∈ [1%N; 2%N]
  ∧ ∃ w1, timer_round 0 [1%N; 2%N] example_world = Some w1
          ∧ sessions (store w1) !! 1%N = None
          ∧ table_invariant (store w1).
Proof.
  assert (modified example_session1 ≤ clock example_world) as Hm
    by (vm_compute; discriminate).
  assert (maxage example_session1 < period (store example_world)) as Ha
    by (vm_compute; reflexivity).
  assert (1%N ∈ [1%N; 2%N]) as Hin by (by left).
  split; [exact (proj1 example_world_ok)|]. split; [exact example_lookup1|].
  split; [exact Hm|]. split; [exact Ha|]. split; [exact Hin|].
  exact (untouched_session_swept 0 [1%N; 2%N] example_world 1%N
           example_session1 (proj1 example_world_ok) example_lookup1
           Hm Ha Hin).
Defined.

Lemma Period_swaps_witness :
  -9223372036 ≤ 0 ≤ 0
  ∧ ∃ s w2, Store_Create example_Variant 3%N 0
              (Store_Period Minute example_world).2 = Some (s, None, w2)
            ∧ maxage s = 30 * Second.
Proof.
  assert (-9223372036 ≤ 0 ≤ 0) as Hsecs by lia.
  split; [exact Hsecs|].
  assert (∃ s w2, Store_Create example_Variant 3%N 0
                    (Store_Period Minute example_world).2
                  = Some (s, None, w2)) as (s & w2 & Hc)
    by (vm_compute; eauto).
  exists s, w2. split; [exact Hc|].
  destruct (Period_swaps Minute example_world)
    as (_ & _ & _ & _ & _ & _ & _ & _ & _ & Httl).
  rewrite (Httl example_Variant 3%N 0 s w2 Hsecs Hc). reflexivity.
Defined.

Lemma Options_undo_witness :
  Manager example_manager = ptrStore
  ∧ Forall (λ opt, opt ≠ nilOpt) [OptMgrFunc_Period nilOpt (5 * Minute)]
  ∧ ∃ p wmid undo w1,
      manager_Options example_manager
        [OptMgrFunc_Period nilOpt (5 * Minute)] example_world
      = Some (p, wmid)
      ∧ manager_Options example_manager
          [OptMgrFunc_Period nilOpt (5 * Minute);
           OptMgrFunc_Period nilOpt Minute] example_world
        = Some (undo, w1)
      ∧ period (store w1) = Minute
      ∧ manager_Options example_manager [undo] w1
        = Some (OptMgrFunc_Period nilOpt Minute, wmid)
      ∧ period (store wmid) = 5 * Minute.
Proof.
  assert (Forall (λ opt, opt ≠ nilOpt)
            [OptMgrFunc_Period nilOpt (5 * Minute)]) as Hopts
    by (repeat constructor; discriminate).
  split; [reflexivity|]. split; [exact Hopts|].
  destruct (Options_undo example_manager
              [OptMgrFunc_Period nilOpt (5 * Minute)] nilOpt Minute
              example_world eq_refl Hopts)
    as (p & wmid & undo & w1 & Hmid & Hall & Hper & _ & _ & _ & _ & _ & Hun).
  exists p, wmid, undo, w1. split; [exact Hmid|]. split; [exact Hall|].
  split; [exact Hper|]. split; [exact Hun|].
  vm_compute in Hmid. injection Hmid as _ <-. reflexivity.
Defined.

Lemma Options_panics_witness :
  nilOpt ∈ [OptMgrFunc_Period nilOpt Minute; nilOpt]
  ∧ manager_Options example_manager
      [OptMgrFunc_Period nilOpt Minute; nilOpt] example_world = None
  ∧ 1 ≠ RAM
  ∧ manager_Options (NewManager 1 0).1 [OptMgrFunc_Period nilOpt Minute]
      example_world = None.
Proof.
  assert (nilOpt ∈ [OptMgrFunc_Period nilOpt Minute; nilOpt]) as Hin
    by (right; left).
  assert (1 ≠ RAM) as Hmem by discriminate.
  split; [exact Hin|].
  split; [exact (proj1 (proj2 (Options_panics example_manager _
                                 example_world)) Hin)|].
  split; [exact Hmem|].
  exact (proj2 (proj2 (Options_panics example_manager
                         [OptMgrFunc_Period nilOpt Minute] example_world))
           1 0 Hmem ltac:(discriminate)).
Defined.

Lemma Destroy_commute_witness :
  example_Variant 1%N ≠ Invalid ∧ example_Variant 2%N ≠ Invalid
  ∧ table_invariant (store example_world)
  ∧ ∃ wa wb w2,
      Store_Destroy example_Variant 1%N example_world = Some (None, wa)
      ∧ Store_Destroy example_Variant 2%N wa = Some (None, w2)
      ∧ Store_Destroy example_Variant 2%N example_world = Some (None, wb)
      ∧ Store_Destroy example_Variant 1%N wb = Some (None, w2).
Proof.
  assert (example_Variant 1%N ≠ Invalid) as Ha by (by apply example_valid).
  assert (example_Variant 2%N ≠ Invalid) as Hb by (by apply example_valid).
  split; [exact Ha|]. split; [exact Hb|].
  split; [exact (proj1 example_world_ok)|].
  exact (Destroy_commute example_Variant 1%N 2%N example_world Ha Hb
           (proj1 example_world_ok)).
Defined.

Lemma sweep_twice_witness :
  table_invariant (store example_world)
  ∧ (∀ k, is_Some (sessions (store example_world) !! k) → k ∈ [1%N; 2%N])
  ∧ ∃ w1, timer_fires [1%N; 2%N] example_world = Some w1
          ∧ timer_fires [2%N] w1 = Some w1.
Proof.
  split; [exact (proj1 example_world_ok)|]. split; [exact example_keys|].
  exact (sweep_twice [1%N; 2%N] [2%N] example_world
           (proj1 example_world_ok) example_keys).
Defined.
